(** * Solarium extension core: a shallow embedding of ExtensionManager.ts

    The development follows the layout of
    [electron-app/src/main/ExtensionManager.ts]: the tab registry, the
    match-pattern matcher, the storage bridge, the content-script resolver,
    icon derivation, extension removal and the CRX installer.

    JavaScript strings are modelled as [string] (sequences of 8-bit
    characters), JavaScript [Map]s whose iteration order is observed as
    association lists in insertion order, plain objects used as
    dictionaries as [gmap string _], and code that may throw as a
    computation in the [result] type below. *)

From Stdlib Require Import ZArith Lia Ascii.
From stdpp Require Import base option list gmap strings pretty fin_maps.

Local Open Scope Z_scope.
Local Open Scope string_scope.

(** ** Exceptions *)

(** A computation that either returns a value or throws an [Error] whose
    [message] is recorded. *)
Inductive result (A : Type) : Type :=
  | Ok (a : A)
  | Throw (message : string).
Arguments Ok {A} a.
Arguments Throw {A} message.

Definition rbind {A B} (m : result A) (k : A → result B) : result B :=
  match m with
  | Ok a => k a
  | Throw e => Throw e
  end.

Notation "x ←! m ; k" := (rbind m (λ x, k))
  (at level 20, m at level 100, k at level 200, only parsing).

Definition returned {A} (m : result A) : bool :=
  match m with Ok _ => true | Throw _ => false end.

(** ** Tab registry ([updateTab], [removeTab], [setActiveTab]) *)

Module TabRegistry.

Inductive TabStatus := loading | complete.

(** [interface TabInfo] *)
Record TabInfo := mkTabInfo {
  id : string;
  url : string;
  title : string;
  active : bool;
  windowId : Z;
  index : Z;
  favIconUrl : option string;
  status : TabStatus;
  incognito : bool
}.

(** [Partial<TabInfo> & { id: string }]: every field but [id] may be
    missing. *)
Record PartialTab := mkPartialTab {
  p_id : string;
  p_url : option string;
  p_title : option string;
  p_active : option bool;
  p_windowId : option Z;
  p_index : option Z;
  p_favIconUrl : option string;
  p_status : option TabStatus;
  p_incognito : option bool
}.

(** A partial record that carries only an identifier. *)
Definition only_id (i : string) : PartialTab :=
  mkPartialTab i None None None None None None None None.

(** [Map<string, TabInfo>], entries in insertion order. *)
Abbreviation TabMap := (list (string * TabInfo)).

(** The two private fields of the manager that the registry uses. *)
Record Registry := mkRegistry {
  tabRegistry : TabMap;
  activeTabId : option string
}.

Definition empty : Registry := mkRegistry [] None.

(** *** [Map] primitives *)

Fixpoint map_get (k : string) (m : TabMap) : option TabInfo :=
  match m with
  | [] => None
  | (k', v) :: m' => if decide (k' = k) then Some v else map_get k m'
  end.

(** [Map.prototype.set]: an existing key keeps its position, a new key
    goes last. *)
Fixpoint map_set (k : string) (v : TabInfo) (m : TabMap) : TabMap :=
  match m with
  | [] => [(k, v)]
  | (k', v') :: m' =>
      if decide (k' = k) then (k, v) :: m' else (k', v') :: map_set k v m'
  end.

Definition map_delete (k : string) (m : TabMap) : TabMap :=
  filter (λ kv, kv.1 ≠ k) m.

Definition map_size (m : TabMap) : Z := Z.of_nat (length m).

Definition map_keys (m : TabMap) : list string := m.*1.

(** [Array.from(map.values())] *)
Definition map_values (m : TabMap) : list TabInfo := m.*2.

(** [map.forEach((tab, id) => ...)] where the callback mutates [tab]. *)
Definition map_forEach (f : string → TabInfo → TabInfo) (m : TabMap) : TabMap :=
  (λ kv, (kv.1, f kv.1 kv.2)) <$> m.

(** [forEach] with a callback that also advances a counter, as in the
    reindexing loop of [removeTab]. *)
Fixpoint map_forEach_counting
    (f : Z → TabInfo → TabInfo) (idx : Z) (m : TabMap) : TabMap :=
  match m with
  | [] => []
  | (k, v) :: m' => (k, f idx v) :: map_forEach_counting f (idx + 1) m'
  end.

(** *** Field updates and JavaScript truthiness *)

Definition set_active (b : bool) (t : TabInfo) : TabInfo :=
  mkTabInfo (id t) (url t) (title t) b (windowId t) (index t)
            (favIconUrl t) (status t) (incognito t).

Definition set_index (i : Z) (t : TabInfo) : TabInfo :=
  mkTabInfo (id t) (url t) (title t) (active t) (windowId t) i
            (favIconUrl t) (status t) (incognito t).

(** [s || d] for an optional string: missing and empty are both falsy. *)
Definition str_or (s : option string) (d : string) : string :=
  match s with
  | Some x => if decide (x = "") then d else x
  | None => d
  end.

(** [b || false] and the test [if (b)] for an optional boolean. *)
Definition truthy (b : option bool) : bool := default false b.

(** [Object.assign(existing, tabInfo)]: every field that the incoming
    record carries overwrites the stored one. *)
Definition assign (existing : TabInfo) (tabInfo : PartialTab) : TabInfo :=
  {| id := p_id tabInfo;
     url := default (url existing) (p_url tabInfo);
     title := default (title existing) (p_title tabInfo);
     active := default (active existing) (p_active tabInfo);
     windowId := default (windowId existing) (p_windowId tabInfo);
     index := default (index existing) (p_index tabInfo);
     favIconUrl := match p_favIconUrl tabInfo with
                   | Some f => Some f
                   | None => favIconUrl existing
                   end;
     status := default (status existing) (p_status tabInfo);
     incognito := default (incognito existing) (p_incognito tabInfo) |}.

(** The record built by [updateTab] for an identifier not yet known. *)
Definition fresh_record (tabInfo : PartialTab) (size : Z) : TabInfo :=
  {| id := p_id tabInfo;
     url := str_or (p_url tabInfo) "";
     title := str_or (p_title tabInfo) "New Tab";
     active := truthy (p_active tabInfo);
     windowId := 1;
     index := size;
     favIconUrl := p_favIconUrl tabInfo;
     status := default complete (p_status tabInfo);
     incognito := false |}.

(** *** The three operations *)

Definition updateTab (tabInfo : PartialTab) (r : Registry) : Registry :=
  let reg :=
    match map_get (p_id tabInfo) (tabRegistry r) with
    | Some existing =>
        map_set (p_id tabInfo) (assign existing tabInfo) (tabRegistry r)
    | None =>
        map_set (p_id tabInfo)
                (fresh_record tabInfo (map_size (tabRegistry r)))
                (tabRegistry r)
    end in
  if truthy (p_active tabInfo) then
    {| tabRegistry :=
         map_forEach (λ k tab, if decide (k ≠ p_id tabInfo)
                               then set_active false tab else tab) reg;
       activeTabId := Some (p_id tabInfo) |}
  else
    {| tabRegistry := reg; activeTabId := activeTabId r |}.

Definition removeTab (tabId : string) (r : Registry) : Registry :=
  let reg := map_delete tabId (tabRegistry r) in
  let act :=
    if decide (activeTabId r = Some tabId) then
      match last (map_values reg) with
      | Some t => Some (id t)
      | None => None
      end
    else activeTabId r in
  {| tabRegistry := map_forEach_counting set_index 0 reg;
     activeTabId := act |}.

Definition setActiveTab (tabId : string) (r : Registry) : Registry :=
  {| tabRegistry :=
       map_forEach (λ k tab, set_active (bool_decide (k = tabId)) tab)
                   (tabRegistry r);
     activeTabId := Some tabId |}.

(** *** Sequences of synchronisation messages *)

Inductive Op :=
  | Upsert (tabInfo : PartialTab)
  | Remove (tabId : string)
  | SetActive (tabId : string).

Definition step (r : Registry) (o : Op) : Registry :=
  match o with
  | Upsert t => updateTab t r
  | Remove i => removeTab i r
  | SetActive i => setActiveTab i r
  end.

Definition run (ops : list Op) : Registry := foldl step empty ops.

(** Number of records whose [active] flag is set. *)
Definition active_count (m : TabMap) : nat :=
  length (filter (λ kv, active kv.2 = true) m).

(** The indices of all records, in iteration order. *)
Definition indices (m : TabMap) : list Z := index <$> map_values m.

(** The dense sequence [0; 1; ...; n-1]. *)
Definition dense (n : nat) : list Z := Z.of_nat <$> seq 0 n.

(** The registry invariant: keys are distinct, as in any [Map], and at
    most one record is active. *)
Definition well_formed (m : TabMap) : Prop :=
  NoDup (map_keys m) ∧ (active_count m ≤ 1)%nat.

End TabRegistry.

(** ** JavaScript strings and values *)

Module Js.

(** [s.startsWith(p)] *)
Definition startsWith (p s : string) : bool := String.prefix p s.

(** [s.slice(n)] for a non-negative [n]. *)
Fixpoint slice (n : nat) (s : string) : string :=
  match n, s with
  | O, _ => s
  | S n', String _ s' => slice n' s'
  | S _, EmptyString => EmptyString
  end.

(** [s.endsWith(p)] *)
Definition endsWith (p s : string) : bool :=
  (String.length p <=? String.length s)%nat
  && bool_decide (slice (String.length s - String.length p) s = p).

(** [s.replace(c, r)] for a one-character search string [c]: only the
    first occurrence is replaced. *)
Fixpoint replace_first (c : ascii) (r : string) (s : string) : string :=
  match s with
  | EmptyString => EmptyString
  | String a s' =>
      if decide (a = c) then r +:+ s' else String a (replace_first c r s')
  end.

(** [s.replace(/\*/g, r)]: every star is replaced. *)
Fixpoint replace_stars (r : string) (s : string) : string :=
  match s with
  | EmptyString => EmptyString
  | String a s' =>
      if decide (a = "*"%char) then r +:+ replace_stars r s'
      else String a (replace_stars r s')
  end.

(** The characters that the regular-expression atom [.] refuses (the
    line terminators that fit in one byte). *)
Definition line_terminator (a : ascii) : bool :=
  bool_decide (a = "010"%char) || bool_decide (a = "013"%char).

Fixpoint no_line_terminator (s : string) : bool :=
  match s with
  | EmptyString => true
  | String a s' => negb (line_terminator a) && no_line_terminator s'
  end.

(** Cuts [s] at the first occurrence of the character [c]: the part
    before it and the part after it. *)
Fixpoint cut_at (c : ascii) (s : string) : option (string * string) :=
  match s with
  | EmptyString => None
  | String a s' =>
      if decide (a = c) then Some (EmptyString, s')
      else match cut_at c s' with
           | Some (before, after) => Some (String a before, after)
           | None => None
           end
  end.

(** A JSON-like value, with [undefined]. *)
#[warnings="-register-all"]
Inductive Value :=
  | Undefined
  | Null
  | Bool (b : bool)
  | Num (n : Z)
  | Str (s : string)
  | Arr (items : list Value)
  | Obj (entries : list (string * Value)).

End Js.

(** ** The file system, as far as the manager uses it *)

Module Fs.

(** [files] maps a path to the content of the file stored there;
    [faulty] holds the paths on which every read, write and unlink fails
    (permissions, a directory in place of a file, an I/O error). *)
Record FS := mkFS {
  files : gmap string string;
  faulty : gset string
}.

(** [fs.existsSync] never throws. *)
Definition existsSync (p : string) (d : FS) : bool :=
  bool_decide (is_Some (files d !! p)).

(** [fs.readFileSync(p, 'utf-8')] *)
Definition readFileSync (p : string) (d : FS) : result string :=
  if decide (p ∈ faulty d) then Throw "EACCES"
  else match files d !! p with
       | Some c => Ok c
       | None => Throw "ENOENT"
       end.

(** [fs.writeFileSync(p, c)] *)
Definition writeFileSync (p c : string) (d : FS) : result FS :=
  if decide (p ∈ faulty d) then Throw "EACCES"
  else Ok (mkFS (<[p := c]> (files d)) (faulty d)).

(** [fs.unlinkSync(p)] *)
Definition unlinkSync (p : string) (d : FS) : result FS :=
  if decide (p ∈ faulty d) then Throw "EACCES"
  else match files d !! p with
       | Some _ => Ok (mkFS (delete p (files d)) (faulty d))
       | None => Throw "ENOENT"
       end.

End Fs.

(** ** Platform interfaces

    Library and host functions that the manager calls but does not
    define.  Each is an interface; the manager's code is written against
    the interface. *)

(** The fields of a parsed [URL] that the matcher reads. *)
Record URL := mkURL {
  protocol : string;
  hostname : string;
  pathname : string;
  search : string
}.

Class WebPlatform := {
  (** [new URL(s)]; [None] when the constructor throws. *)
  URL_new : string → option URL;
  (** [new RegExp(source).test(s)]; [None] when the constructor throws. *)
  RegExp_test : string → string → option bool
}.

Class PathLib := {
  (** [path.join(...segments)] *)
  path_join : list string → string;
  (** [path.extname(p)] *)
  path_extname : string → string
}.

(** ** Match patterns ([matchesUrlPattern]) *)

Module Matcher.

Definition schemes : list string := ["*"; "https"; "http"; "ftp"; "file"].

(** The scheme group and the separator that follows it: the scheme and
    what comes after the separator. *)
Fixpoint split_scheme (candidates : list string) (pattern : string)
    : option (string * string) :=
  match candidates with
  | [] => None
  | sch :: rest =>
      if Js.startsWith (sch +:+ "://") pattern
      then Some (sch, Js.slice (String.length (sch +:+ "://")) pattern)
      else split_scheme rest pattern
  end.

(** The [pattern.match] call of the source, against the expression with
    three capture groups: a scheme among star, http, https, ftp and file;
    the separator; a host that is a star or an optional star-dot followed
    by characters other than the slash; one slash; and a path of any
    characters up to the end of the pattern.  The host group stops at the
    first slash after the separator; the path group must run to the end,
    which the dot atom allows only without line terminators. *)
Definition parse_pattern (pattern : string) : option (string * string * string) :=
  match split_scheme schemes pattern with
  | None => None
  | Some (scheme, rest) =>
      match Js.cut_at "/"%char rest with
      | None => None
      | Some (host, patternPath) =>
          if Js.no_line_terminator patternPath
          then Some (scheme, host, patternPath)
          else None
      end
  end.

Section WithPlatform.
Context {W : WebPlatform}.

(** The body of the loop for one pattern other than [<all_urls>]:
    [true] when the body reaches [return true], [false] when it reaches a
    [continue] (also through the [catch]). *)
Definition pattern_applies (url pattern : string) : bool :=
  match parse_pattern pattern with
  | None => false
  | Some (scheme, host, patternPath) =>
      match URL_new url with
      | None => false
      | Some parsed =>
          if bool_decide (scheme ≠ "*")
             && bool_decide (scheme ≠ Js.replace_first ":"%char "" (protocol parsed))
          then false
          else if (if bool_decide (host ≠ "*") then
                     if Js.startsWith "*." host then
                       let domain := Js.slice 2 host in
                       bool_decide (hostname parsed ≠ domain)
                       && negb (Js.endsWith ("." +:+ domain) (hostname parsed))
                     else bool_decide (hostname parsed ≠ host)
                   else false)
          then false
          else
            match RegExp_test ("^/" +:+ Js.replace_stars ".*" patternPath +:+ "$")
                              (pathname parsed +:+ search parsed) with
            | Some true => true
            | _ => false
            end
      end
  end.

(** One pattern matches the URL. *)
Definition matches_one (url pattern : string) : bool :=
  bool_decide (pattern = "<all_urls>") || pattern_applies url pattern.

Fixpoint matchesUrlPattern (url : string) (patterns : list string) : bool :=
  match patterns with
  | [] => false
  | pattern :: rest =>
      if decide (pattern = "<all_urls>") then true
      else if pattern_applies url pattern then true
      else matchesUrlPattern url rest
  end.

End WithPlatform.

End Matcher.

(** ** Storage bridge ([loadStorage], [saveStorage], [storageGet],
       [storageSet], [storageRemove], [storageClear]) *)

(** A storage document: [Record<string, any>], as the dictionary of its
    own properties. *)
Abbreviation Doc := (gmap string Js.Value).

Class JsonLib := {
  (** [JSON.parse] on the text of a storage file, which holds an object
      whenever it parses; [None] when it throws. *)
  JSON_parse : string → option Doc;
  (** [JSON.stringify(data, null, 2)] *)
  JSON_stringify : Doc → string
}.

Module Storage.

(** The in-memory cache [extensionStorage] and the disk. *)
Record State := mkState {
  extensionStorage : gmap string Doc;
  disk : Fs.FS
}.

(** The argument of [storageGet]:
    [string | string[] | Record<string, any> | null]. *)
Inductive Keys :=
  | NoKeys
  | OneKey (key : string)
  | KeyList (keys : list string)
  | Defaults (defaults : Doc).

Section WithPlatform.
Context {P : PathLib} {J : JsonLib}.
Variable extensionsPath : string.

Definition getStoragePath (extensionId : string) : string :=
  path_join [extensionsPath; extensionId; "_solarium_storage.json"].

Definition loadStorage (extensionId : string) (st : State) : Doc * State :=
  match extensionStorage st !! extensionId with
  | Some data => (data, st)
  | None =>
      let storagePath := getStoragePath extensionId in
      let fallback :=
        (∅, mkState (<[extensionId := ∅]> (extensionStorage st)) (disk st)) in
      if Fs.existsSync storagePath (disk st) then
        match Fs.readFileSync storagePath (disk st) with
        | Ok text =>
            match JSON_parse text with
            | Some data =>
                (data, mkState (<[extensionId := data]> (extensionStorage st))
                               (disk st))
            | None => fallback
            end
        | Throw _ => fallback
        end
      else fallback
  end.

Definition saveStorage (extensionId : string) (st : State) : State :=
  let data := default ∅ (extensionStorage st !! extensionId) in
  let storagePath := getStoragePath extensionId in
  match Fs.writeFileSync storagePath (JSON_stringify data) (disk st) with
  | Ok d => mkState (extensionStorage st) d
  | Throw _ => st
  end.

(** The body of the loop over an array of keys: a key goes to the result
    when it is [in] the document. *)
Definition pick_key (storage : Doc) (result : Doc) (key : string) : Doc :=
  match storage !! key with
  | Some v => <[key := v]> result
  | None => result
  end.

Definition pick_present (storage : Doc) (keys : list string) : Doc :=
  foldl (pick_key storage) ∅ keys.

(** The body of the loop over [Object.entries(keys)] of a key-to-default
    object. *)
Definition merge_entry (storage : Doc) (result : Doc) (entry : string * Js.Value)
    : Doc :=
  <[entry.1 := match storage !! entry.1 with
               | Some v => v
               | None => entry.2
               end]> result.

Definition pick_with_defaults (storage : Doc) (defaults : Doc) : Doc :=
  foldl (merge_entry storage) ∅ (map_to_list defaults).

Definition storageGet (extensionId : string) (keys : Keys) (st : State)
    : Doc * State :=
  let '(storage, st') := loadStorage extensionId st in
  match keys with
  | NoKeys => (storage, st')
  | OneKey key => ({[ key := default Js.Undefined (storage !! key) ]}, st')
  | KeyList keys => (pick_present storage keys, st')
  | Defaults defaults => (pick_with_defaults storage defaults, st')
  end.

(** [Object.assign(storage, items)]: the entries of [items] win. *)
Definition storageSet (extensionId : string) (items : Doc) (st : State) : State :=
  let '(storage, st') := loadStorage extensionId st in
  let storage := items ∪ storage in
  saveStorage extensionId
    (mkState (<[extensionId := storage]> (extensionStorage st')) (disk st')).

(** [keys] is a single key or an array of keys. *)
Definition storageRemove (extensionId : string) (keys : string + list string)
    (st : State) : State :=
  let '(storage, st') := loadStorage extensionId st in
  let keyList := match keys with inl k => [k] | inr ks => ks end in
  let storage := foldl (λ doc key, delete key doc) storage keyList in
  saveStorage extensionId
    (mkState (<[extensionId := storage]> (extensionStorage st')) (disk st')).

Definition storageClear (extensionId : string) (st : State) : State :=
  saveStorage extensionId
    (mkState (<[extensionId := ∅]> (extensionStorage st)) (disk st)).

(** The four storage requests that a caller can issue. *)
Inductive Request :=
  | Get (keys : Keys)
  | Set_ (items : Doc)
  | Remove (keys : string + list string)
  | Clear.

(** The state after the request has been served for [extensionId]. *)
Definition serve (extensionId : string) (q : Request) (st : State) : State :=
  match q with
  | Get keys => (storageGet extensionId keys st).2
  | Set_ items => storageSet extensionId items st
  | Remove keys => storageRemove extensionId keys st
  | Clear => storageClear extensionId st
  end.

(** The document of an extension as its next access sees it. *)
Definition document (extensionId : string) (st : State) : Doc :=
  (loadStorage extensionId st).1.

(** Two states look the same from extension [B]: its cache entry, its
    storage file and the faults of the disk agree. *)
Definition same_for (B : string) (st st' : State) : Prop :=
  extensionStorage st' !! B = extensionStorage st !! B
  ∧ Fs.files (disk st') !! getStoragePath B = Fs.files (disk st) !! getStoragePath B
  ∧ Fs.faulty (disk st') = Fs.faulty (disk st).

End WithPlatform.

End Storage.

(** ** Extensions as the host reports them *)

Module Ext.

(** One entry of [manifest.content_scripts]. *)
Record ContentScript := mkContentScript {
  matches : option (list string);
  exclude_matches : option (list string);
  js : option (list string);
  css : option (list string);
  run_at : option string
}.

(** The manifest fields that the manager reads.  [icons] lists the
    entries of the object in the order of [Object.keys]; the three popup
    fields are [action.default_popup], [browser_action.default_popup] and
    [page_action.default_popup]. *)
Record Manifest := mkManifest {
  manifest_version : option string;
  manifest_description : option string;
  icons : option (list (string * Js.Value));
  action_popup : option string;
  browser_action_popup : option string;
  page_action_popup : option string;
  content_scripts : option (list ContentScript)
}.

(** [ext.manifest || {}] *)
Definition empty_manifest : Manifest :=
  mkManifest None None None None None None None.

(** An extension as returned by the host session. *)
Record HostExtension := mkHostExtension {
  host_id : string;
  host_name : string;
  host_path : string;
  host_manifest : option Manifest
}.

(** [interface ExtensionInfo] *)
Record ExtensionInfo := mkExtensionInfo {
  id : string;
  name : string;
  version : string;
  path : string;
  manifest : Manifest;
  description : string;
  iconUrl : string;
  popupPage : option string
}.

End Ext.

(** [session.defaultSession.extensions] *)
Class HostPrimitive := {
  Host : Type;
  getAllExtensions : Host → list Ext.HostExtension;
  (** [loadExtension(dir)]; a rejected promise is a [Throw]. *)
  loadExtension : string → Fs.FS → Host → result (Ext.HostExtension * Host);
  removeExtension : string → Host → result Host
}.

Class Encoding := {
  (** [buf.toString('base64')] *)
  base64 : string → string
}.

(** ** The extension registry ([getLoadedExtensions],
       [resolveExtensionIcon], [resolvePopupPage]) *)

Module Registry.
Import Ext.

(** The numbers that [Number(key)] yields for the keys of an icon
    mapping: an integer for a string of decimal digits (zero for the
    empty string), [NaN] for any other key. *)
Inductive Number := NaN | Int (n : Z).

Definition digit (a : ascii) : option Z :=
  let n := Z.of_nat (nat_of_ascii a) in
  if ((48 <=? n) && (n <=? 57))%Z then Some (n - 48) else None.

Fixpoint digits (acc : Z) (s : string) : option Z :=
  match s with
  | EmptyString => Some acc
  | String a s' =>
      match digit a with
      | Some d => digits (10 * acc + d) s'
      | None => None
      end
  end.

Definition Number_of (s : string) : Number :=
  match digits 0 s with
  | Some n => Int n
  | None => NaN
  end.

(** [n.toString()] *)
Definition Number_toString (n : Number) : string :=
  match n with
  | NaN => "NaN"
  | Int n => pretty n
  end.

(** The comparator [(a, b) => b - a]; a [NaN] difference counts as
    zero. *)
Definition descending (a b : Number) : Z :=
  match a, b with
  | Int x, Int y => y - x
  | _, _ => 0
  end.

(** [Array.prototype.sort] as a stable insertion sort. *)
Fixpoint sort_insert (cmp : Number → Number → Z) (x : Number) (sorted : list Number)
    : list Number :=
  match sorted with
  | [] => [x]
  | y :: rest =>
      if (cmp x y <? 0)%Z then x :: y :: rest else y :: sort_insert cmp x rest
  end.

Definition sort (cmp : Number → Number → Z) (l : list Number) : list Number :=
  foldl (λ sorted x, sort_insert cmp x sorted) [] l.

(** [Object.keys(o)] and [o[k]] on the entries of an object. *)
Definition keys_of (o : list (string * Js.Value)) : list string := o.*1.

Fixpoint property (o : list (string * Js.Value)) (k : string) : Js.Value :=
  match o with
  | [] => Js.Undefined
  | (k', v) :: o' => if decide (k' = k) then v else property o' k
  end.

(** [s.toLowerCase()] on one-byte characters. *)
Definition lower (a : ascii) : ascii :=
  let n := nat_of_ascii a in
  if (65 <=? n)%nat && (n <=? 90)%nat then ascii_of_nat (n + 32) else a.

Fixpoint toLowerCase (s : string) : string :=
  match s with
  | EmptyString => EmptyString
  | String a s' => String (lower a) (toLowerCase s')
  end.

Section WithPlatform.
Context {P : PathLib} {E : Encoding} {HP : HostPrimitive}.

Definition mime_of (ext : string) : string :=
  if decide (ext = ".svg") then "image/svg+xml"
  else if decide (ext = ".webp") then "image/webp"
  else if bool_decide (ext = ".jpg") || bool_decide (ext = ".jpeg") then "image/jpeg"
  else "image/png".

(** [resolveExtensionIcon(extPath, manifest)].  The call of [startsWith]
    on the selected entry is outside the [try] block: it throws a
    [TypeError] when the entry is not a string. *)
Definition resolveExtensionIcon (extPath : string) (m : Manifest) (d : Fs.FS)
    : result string :=
  match icons m with
  | None => Ok ""
  | Some icons =>
      let sizes := sort descending (Number_of <$> keys_of icons) in
      match sizes with
      | [] => Ok ""
      | largest :: _ =>
          match property icons (Number_toString largest) with
          | Js.Str iconRelPath =>
              let cleanPath :=
                if Js.startsWith "/" iconRelPath then Js.slice 1 iconRelPath
                else iconRelPath in
              let fullPath := path_join [extPath; cleanPath] in
              if negb (Fs.existsSync fullPath d) then Ok ""
              else
                match Fs.readFileSync fullPath d with
                | Throw _ => Ok ""
                | Ok buf =>
                    let ext := toLowerCase (path_extname iconRelPath) in
                    Ok ("data:" +:+ mime_of ext +:+ ";base64," +:+ base64 buf)
                end
          | Js.Undefined | Js.Null =>
              Throw "TypeError: Cannot read properties of undefined"
          | _ => Throw "TypeError: iconRelPath.startsWith is not a function"
          end
      end
  end.

(** [a || b] on optional strings. *)
Definition or_else (a b : option string) : option string :=
  match a with
  | Some s => if decide (s = "") then b else Some s
  | None => b
  end.

(** [popup.replace(/^\.?\//, '')] *)
Definition strip_leading (popup : string) : string :=
  if Js.startsWith "./" popup then Js.slice 2 popup
  else if Js.startsWith "/" popup then Js.slice 1 popup
  else popup.

Definition resolvePopupPage (extId : string) (m : Manifest) : option string :=
  match or_else (action_popup m)
                (or_else (browser_action_popup m) (page_action_popup m)) with
  | None => None
  | Some popup =>
      if decide (popup = "") then None
      else Some ("chrome-extension://" +:+ extId +:+ "/" +:+ strip_leading popup)
  end.

(** The filter with the [seen] set: the first entry of every identifier
    is kept. *)
Fixpoint unique (seen : gset string) (raw : list HostExtension)
    : list HostExtension :=
  match raw with
  | [] => []
  | ext :: rest =>
      if decide (host_id ext ∈ seen) then unique seen rest
      else ext :: unique ({[host_id ext]} ∪ seen) rest
  end.

(** The callback of [unique.map]. *)
Definition describe (d : Fs.FS) (ext : HostExtension) : result ExtensionInfo :=
  let manifest := default empty_manifest (host_manifest ext) in
  iconUrl ←! resolveExtensionIcon (host_path ext) manifest d;
  let popupPage := resolvePopupPage (host_id ext) manifest in
  Ok {| id := host_id ext;
        name := host_name ext;
        version := default "" (manifest_version manifest);
        path := host_path ext;
        manifest := manifest;
        description := default "" (manifest_description manifest);
        iconUrl := iconUrl;
        popupPage := popupPage |}.

(** [Array.prototype.map] with a callback that may throw. *)
Fixpoint map_throwing {A B} (f : A → result B) (l : list A) : result (list B) :=
  match l with
  | [] => Ok []
  | a :: l' => b ←! f a; bs ←! map_throwing f l'; Ok (b :: bs)
  end.

Definition getLoadedExtensions (h : Host) (d : Fs.FS) : result (list ExtensionInfo) :=
  map_throwing (describe d) (unique ∅ (getAllExtensions h)).

End WithPlatform.

End Registry.

(** ** Content-script resolution ([getContentScriptsForUrl]) *)

Module ContentScripts.
Import Ext.


Section WithPlatform.
Context {W : WebPlatform} {P : PathLib} {E : Encoding} {HP : HostPrimitive}.








(** *** The resolver as the specification words it *)






End WithPlatform.

End ContentScripts.

(** ** Removal of an extension (the [extension:remove] handler) *)

Module Removal.

(** [{ success: true }] or [{ success: false, error }] *)
Inductive Reply :=
  | Success
  | Failure (error : string).

Section WithPlatform.
Context {P : PathLib} {HP : HostPrimitive}.
Variable extensionsPath : string.

Definition handle_remove (extensionId : string) (h : Host) (st : Storage.State)
    : Reply * Host * Storage.State :=
  match removeExtension extensionId h with
  | Throw e => (Failure e, h, st)
  | Ok h' =>
      let cache := delete extensionId (Storage.extensionStorage st) in
      let storagePath := Storage.getStoragePath extensionsPath extensionId in
      if Fs.existsSync storagePath (Storage.disk st) then
        match Fs.unlinkSync storagePath (Storage.disk st) with
        | Ok d => (Success, h', Storage.mkState cache d)
        | Throw e => (Failure e, h', Storage.mkState cache (Storage.disk st))
        end
      else (Success, h', Storage.mkState cache (Storage.disk st))
  end.

End WithPlatform.

End Removal.

(** ** The CRX installer (the [done] listener of [setupCRXHandler]) *)

(** The [adm-zip] package. *)
Class ZipLib := {
  Archive : Type;
  (** [new AdmZip(buf)] *)
  AdmZip_new : list Byte.byte → result Archive;
  (** [zip.extractAllTo(dir, true)]: the disk afterwards, also when the
      call throws half-way. *)
  extractAllTo : Archive → string → Fs.FS → result unit * Fs.FS
}.

Module Installer.

(** The local-file-header signature, bytes 50 4B 03 04. *)
Definition zipMagic : list Byte.byte := [Byte.x50; Byte.x4b; Byte.x03; Byte.x04].

Fixpoint starts_with (needle buf : list Byte.byte) : bool :=
  match needle, buf with
  | [], _ => true
  | _ :: _, [] => false
  | a :: needle', b :: buf' => Byte.eqb a b && starts_with needle' buf'
  end.

Fixpoint indexOf_from (at_ : Z) (buf needle : list Byte.byte) : Z :=
  match buf with
  | [] => if starts_with needle [] then at_ else -1
  | _ :: buf' =>
      if starts_with needle buf then at_
      else indexOf_from (at_ + 1) buf' needle
  end.

(** [buf.indexOf(needle)]: the first offset at which [needle] occurs, or
    -1. *)
Definition indexOf (buf needle : list Byte.byte) : Z := indexOf_from 0 buf needle.

(** [buf.subarray(start)] for a non-negative [start]. *)
Definition subarray (start : Z) (buf : list Byte.byte) : list Byte.byte :=
  drop (Z.to_nat start) buf.

(** The bytes handed to the archive library. *)
Definition zip_payload (fileBuf : list Byte.byte) : list Byte.byte :=
  let zipStart := indexOf fileBuf zipMagic in
  if (0 <? zipStart)%Z then subarray zipStart fileBuf else fileBuf.

(** The state of a finished download item. *)
Inductive DownloadState := completed | cancelled | interrupted.

Section WithPlatform.
Context {HP : HostPrimitive} {ZL : ZipLib}.

(** The disk, the host session and the names sent to the windows on the
    [extension-installed] channel. *)
Record World := mkWorld {
  disk : Fs.FS;
  session : Host;
  notices : list string
}.

(** What the listener did: [Ok name] when the [try] block ran to its
    end, [Throw e] when the [catch] logged [e]. *)
Definition Outcome : Type := result string * World.

(** The [try] block, from the archive bytes on. *)
Definition install_payload (zipBuf : list Byte.byte) (tempPath destDir : string)
    (w : World) : Outcome :=
  match AdmZip_new zipBuf with
  | Throw e => (Throw e, w)
  | Ok zip =>
      match extractAllTo zip destDir (disk w) with
      | (Throw e, d1) => (Throw e, mkWorld d1 (session w) (notices w))
      | (Ok _, d1) =>
          match loadExtension destDir d1 (session w) with
          | Throw e => (Throw e, mkWorld d1 (session w) (notices w))
          | Ok (ext, h1) =>
              let sent := (notices w ++ [Ext.host_name ext])%list in
              match Fs.unlinkSync tempPath d1 with
              | Throw e => (Throw e, mkWorld d1 h1 sent)
              | Ok d2 => (Ok (Ext.host_name ext), mkWorld d2 h1 sent)
              end
          end
      end
  end.

(** The listener for a completed download. *)
Definition install (tempPath destDir : string) (w : World) : Outcome :=
  match Fs.readFileSync tempPath (disk w) with
  | Throw e => (Throw e, w)
  | Ok content =>
      let fileBuf := String.list_byte_of_string content in
      install_payload (zip_payload fileBuf) tempPath destDir w
  end.

Definition on_done (state : DownloadState) (tempPath destDir : string)
    (w : World) : option Outcome :=
  match state with
  | completed => Some (install tempPath destDir w)
  | _ => None
  end.

End WithPlatform.

End Installer.

(** ** A reference platform

    Small executable instances of the platform interfaces, on which the
    model can be run. *)

Module Reference.

(** *** URLs of the form [scheme://host/path?query#fragment] *)

(** Cuts [s] at the first occurrence of the separator of scheme and
    authority. *)
Fixpoint cut_scheme (s : string) : option (string * string) :=
  if Js.startsWith "://" s then Some (EmptyString, Js.slice 3 s)
  else match s with
       | EmptyString => None
       | String a s' =>
           match cut_scheme s' with
           | Some (scheme, rest) => Some (String a scheme, rest)
           | None => None
           end
       end.

(** The part of [s] before the first [c], or all of [s]. *)
Definition before (c : ascii) (s : string) : string :=
  match Js.cut_at c s with
  | Some (b, _) => b
  | None => s
  end.

(** The part of [s] from the first [c] on, or nothing. *)
Definition from (c : ascii) (s : string) : string :=
  match Js.cut_at c s with
  | Some (_, a) => String c a
  | None => EmptyString
  end.

Definition simple_URL (s : string) : option URL :=
  match cut_scheme s with
  | None => None
  | Some (scheme, rest) =>
      let rest := before "#"%char rest in
      let authority := before "?"%char (before "/"%char rest) in
      let tail := Js.slice (String.length authority) rest in
      let path := before "?"%char tail in
      Some {| protocol := scheme +:+ ":";
              hostname := before ":"%char authority;
              pathname := if decide (path = "") then "/" else path;
              search := from "?"%char tail |}
  end.

(** *** Anchored expressions built from literal characters and [.*] *)

Inductive Token :=
  | Lit (a : ascii)
  | AnyRun.

Definition meta (a : ascii) : bool :=
  bool_decide (a ∈ String.list_ascii_of_string "\^$.|?*+()[]{}").

(** The tokens of an expression body that ends with the end anchor. *)
Fixpoint tokens (s : string) : option (list Token) :=
  match s with
  | EmptyString => None
  | String a s' =>
      if decide (a = "$"%char) then
        if decide (s' = EmptyString) then Some [] else None
      else if decide (a = "."%char) then
        match s' with
        | String b s'' =>
            if decide (b = "*"%char) then cons AnyRun <$> tokens s'' else None
        | EmptyString => None
        end
      else if meta a then None
      else cons (Lit a) <$> tokens s'
  end.

Definition compile (source : string) : option (list Token) :=
  match source with
  | String a body => if decide (a = "^"%char) then tokens body else None
  | EmptyString => None
  end.

Fixpoint accepts (toks : list Token) : list ascii → bool :=
  match toks with
  | [] => λ s, match s with [] => true | _ => false end
  | Lit c :: toks' =>
      λ s, match s with
           | a :: s' => bool_decide (a = c) && accepts toks' s'
           | [] => false
           end
  | AnyRun :: toks' =>
      fix run (s : list ascii) : bool :=
        accepts toks' s
        || match s with
           | a :: s' => negb (Js.line_terminator a) && run s'
           | [] => false
           end
  end.

Definition simple_RegExp_test (source s : string) : option bool :=
  match compile source with
  | Some toks => Some (accepts toks (String.list_ascii_of_string s))
  | None => None
  end.

#[local] Instance web : WebPlatform :=
  {| URL_new := simple_URL; RegExp_test := simple_RegExp_test |}.

(** *** POSIX paths *)

(** The segments of a path between its slashes. *)
Fixpoint segments_of (s : string) : list string :=
  match s with
  | EmptyString => [EmptyString]
  | String a s' =>
      if decide (a = "/"%char) then EmptyString :: segments_of s'
      else match segments_of s' with
           | seg :: rest => String a seg :: rest
           | [] => [String a EmptyString]
           end
  end.

(** One step of the normalisation of a path; the stack holds the
    segments kept so far, the last one first. *)
Definition push_segment (allowAboveRoot : bool) (stack : list string) (seg : string)
    : list string :=
  if decide (seg = "") then stack
  else if decide (seg = ".") then stack
  else if decide (seg = "..") then
    match stack with
    | top :: below =>
        if decide (top = "..") then (if allowAboveRoot then ".." :: stack else stack)
        else below
    | [] => if allowAboveRoot then [".."] else []
    end
  else seg :: stack.

Fixpoint join_with (sep : string) (l : list string) : string :=
  match l with
  | [] => ""
  | [x] => x
  | x :: rest => x +:+ sep +:+ join_with sep rest
  end.

Definition normalizeString (path : string) (allowAboveRoot : bool) : string :=
  join_with "/" (rev (foldl (push_segment allowAboveRoot) [] (segments_of path))).

(** [path.posix.normalize] *)
Definition normalize (path : string) : string :=
  if decide (path = "") then "."
  else
    let isAbsolute := Js.startsWith "/" path in
    let trailingSeparator := Js.endsWith "/" path in
    let p := normalizeString path (negb isAbsolute) in
    if decide (p = "") then
      (if isAbsolute then "/" else if trailingSeparator then "./" else ".")
    else
      (if isAbsolute then "/" else "") +:+ p +:+ (if trailingSeparator then "/" else "").

(** [path.posix.join] *)
Definition join (args : list string) : string :=
  match filter (λ arg, arg ≠ "") args with
  | [] => "."
  | parts => normalize (join_with "/" parts)
  end.

(** The suffix of [p] that starts at its last dot. *)
Fixpoint from_last_dot (p : string) : string :=
  match p with
  | EmptyString => EmptyString
  | String a p' =>
      let later := from_last_dot p' in
      if decide (later = EmptyString)
      then (if decide (a = "."%char) then p else EmptyString)
      else later
  end.

(** [path.posix.extname] for a path that does not end with a slash. *)
Definition extname (p : string) : string :=
  let base := default "" (last (segments_of p)) in
  let ext := from_last_dot base in
  if decide (base = "..") then ""
  else if decide (ext = base) then ""
  else ext.

#[local] Instance paths : PathLib :=
  {| path_join := join; path_extname := extname |}.

(** A string that stands as one segment of a path, as the identifiers
    that the host issues do. *)
Definition plain (s : string) : Prop :=
  segments_of s = [s] ∧ s ≠ "" ∧ s ≠ "." ∧ s ≠ "..".

(** What precedes the last two segments in a joined path. *)
Definition lead (l : list string) : string :=
  match l with
  | [] => ""
  | _ => join_with "/" l +:+ "/"
  end.

(** *** The remaining interfaces *)

(** Text is left as it is. *)
#[local] Instance plain_encoding : Encoding := {| base64 := λ buf, buf |}.

(** Only the empty document is written and read back. *)
#[local] Instance empty_json : JsonLib :=
  {| JSON_parse := λ text, if decide (text = "{}") then Some ∅ else None;
     JSON_stringify := λ _, "{}" |}.

Definition load_directory (dir : string) (d : Fs.FS) (h : list Ext.HostExtension)
    : result (Ext.HostExtension * list Ext.HostExtension) :=
  if Fs.existsSync (join [dir; "manifest.json"]) d then
    let ext := Ext.mkHostExtension dir dir dir None in
    Ok (ext, (h ++ [ext])%list)
  else Throw "Manifest file is missing or unreadable".

Definition unload (extensionId : string) (h : list Ext.HostExtension)
    : result (list Ext.HostExtension) :=
  if bool_decide (extensionId ∈ Ext.host_id <$> h)
  then Ok (filter (λ e, Ext.host_id e ≠ extensionId) h)
  else Throw "Extension not loaded".

(** A host session that is the list of its loaded extensions. *)
#[local] Instance host_session : HostPrimitive :=
  {| Host := list Ext.HostExtension;
     getAllExtensions := λ h, h;
     loadExtension := load_directory;
     removeExtension := unload |}.

(** The end-of-central-directory signature, bytes 50 4B 05 06. *)
Definition endSignature : list Byte.byte :=
  [Byte.x50; Byte.x4b; Byte.x05; Byte.x06].

Definition write_entry (dir : string) (d : Fs.FS) (entry : string * string) : Fs.FS :=
  Fs.mkFS (<[dir +:+ "/" +:+ entry.1 := entry.2]> (Fs.files d)) (Fs.faulty d).

(** Archives are opened by locating the end-of-central-directory record;
    the central directory of every archive is taken to be empty. *)
#[local] Instance archives : ZipLib :=
  {| Archive := list (string * string);
     AdmZip_new := λ buf,
       if (0 <=? Installer.indexOf buf endSignature)%Z then Ok []
       else Throw "Invalid or unsupported zip format. No END header found";
     extractAllTo := λ zip dir d, (Ok tt, foldl (write_entry dir) d zip) |}.

(** An empty archive: the end-of-central-directory record alone. *)
Definition empty_archive : list Byte.byte :=
  (endSignature ++ replicate 18 Byte.x00)%list.

End Reference.

(** ** Concrete inputs on the reference platform *)

Module Scenario.

(** Three tabs, the first of them active, and a fourth to add. *)
Definition three_tabs : TabRegistry.Registry :=
  TabRegistry.run
    [TabRegistry.Upsert
       (TabRegistry.mkPartialTab "a" None None (Some true) None None None None None);
     TabRegistry.Upsert (TabRegistry.only_id "b");
     TabRegistry.Upsert (TabRegistry.only_id "c")].

Definition fourth_tab : TabRegistry.PartialTab :=
  TabRegistry.mkPartialTab "d" (Some "https://example.com/") None (Some true)
                           None (Some 7) None None None.

(** A state without cached documents and without files. *)
Definition no_files : Storage.State := Storage.mkState ∅ (Fs.mkFS ∅ ∅).

(** A cached document and its storage file for the extension ext-A. *)
Definition stored : Storage.State :=
  Storage.mkState {[ "ext-A" := {[ "k" := Js.Str "x" ]} ]}
    (Fs.mkFS {[ "/extensions/ext-A/_solarium_storage.json" := "{}" ]} ∅).

(** An extension with one content-script block for example.com that
    leaves out the admin pages, and a disk that holds its script. *)
Definition example_block : Ext.ContentScript :=
  Ext.mkContentScript (Some ["*://example.com/*"])
                      (Some ["*://example.com/admin/*"])
                      (Some ["content.js"]) None None.

Definition example_manifest : Ext.Manifest :=
  Ext.mkManifest (Some "1.0") None None None None None (Some [example_block]).

Definition example_extension : Ext.HostExtension :=
  Ext.mkHostExtension "ext-A" "Example" "/extensions/ext-A" (Some example_manifest).

Definition example_info : Ext.ExtensionInfo :=
  Ext.mkExtensionInfo "ext-A" "Example" "1.0" "/extensions/ext-A"
                      example_manifest "" "" None.

Definition example_disk : Fs.FS :=
  Fs.mkFS {[ "/extensions/ext-A/content.js" := "console.log(1)" ]} ∅.

(** Three manifests: the only icon entry is a number; the only icon key
    is not numeric; the only icon key is numeric with a leading zero. *)
Definition number_icon : Ext.Manifest :=
  Ext.mkManifest None None (Some [("16", Js.Num 5)]) None None None None.

Definition named_icon : Ext.Manifest :=
  Ext.mkManifest None None (Some [("big", Js.Str "a.png")]) None None None None.

Definition padded_icon : Ext.Manifest :=
  Ext.mkManifest None None (Some [("016", Js.Str "a.png")]) None None None None.

(** A finished download of an empty archive, which holds no local file
    header, into a directory that holds the manifest of an earlier
    installation. *)
Definition download : Installer.World (HP := Reference.host_session) :=
  Installer.mkWorld (HP := Reference.host_session)
    (Fs.mkFS {[ "/extensions/temp/ext-A.crx" :=
                  String.string_of_list_byte Reference.empty_archive;
                "/extensions/ext-A/manifest.json" := "manifest of ext-A" ]} ∅)
    [] [].

End Scenario.

(** ** The emulated tabs API ([tabsQuery], [tabsGet], [tabsCreate],
       [tabsUpdate], [tabsRemove]) *)

Module TabApi.
Import TabRegistry.

(** [s.includes(sub)] *)
Fixpoint includes (sub s : string) : bool :=
  String.prefix sub s
  || match s with
     | EmptyString => false
     | String _ s' => includes sub s'
     end.

(** A message sent to the renderer with
    [mainWindow.webContents.send(channel, payload)]. *)
Inductive Message :=
  | CreateTab (url : string)
  | NavigateTab (tabId url : string)
  | ActivateTab (tabId : string)
  | CloseTab (tabId : string)
  | PinTab (tabId : string) (pinned : bool).

(** The registry, whether [mainWindow] is set, and the messages sent so
    far. *)
Record Manager := mkManager {
  registry : Registry;
  mainWindow : bool;
  outbox : list Message
}.

(** [this.mainWindow?.webContents.send(...)] *)
Definition send (msg : Message) (m : Manager) : Manager :=
  if mainWindow m then mkManager (registry m) true (outbox m ++ [msg])%list
  else m.

Definition with_registry (r : Registry) (m : Manager) : Manager :=
  mkManager r (mainWindow m) (outbox m).

(** The fields of [queryInfo] that [tabsQuery] reads; [q_url] is a
    string or an array of strings. *)
Record QueryInfo := mkQueryInfo {
  q_active : option bool;
  q_url : option (string + list string);
  q_title : option string
}.

(** The fields of [createProps] and [updateProps]. *)
Record CreateProps := mkCreateProps {
  c_url : option string;
  c_active : option bool
}.

Record UpdateProps := mkUpdateProps {
  u_url : option string;
  u_active : option bool;
  u_pinned : option bool
}.

(** The test [if (s)] on an optional string. *)
Definition nonempty (s : option string) : option string :=
  match s with
  | Some x => if decide (x = "") then None else Some x
  | None => None
  end.

(** Every record is stored under its own identifier. *)
Definition keyed (m : TabMap) : Prop := ∀ kv, kv ∈ m → id kv.2 = kv.1.

Section WithPlatform.
Context {W : WebPlatform}.

(** The patterns of a truthy [queryInfo.url]: an empty string is falsy,
    an array never is. *)
Definition url_patterns (q : QueryInfo) : option (list string) :=
  match q_url q with
  | Some (inl pattern) => if decide (pattern = "") then None else Some [pattern]
  | Some (inr patterns) => Some patterns
  | None => None
  end.

Definition tabsQuery (queryInfo : QueryInfo) (r : Registry) : list TabInfo :=
  let results := map_values (tabRegistry r) in
  let results :=
    if decide (q_active queryInfo = Some true)
    then filter (λ t, active t = true) results else results in
  let results :=
    match url_patterns queryInfo with
    | Some patterns =>
        filter (λ t, Matcher.matchesUrlPattern (url t) patterns = true) results
    | None => results
    end in
  match nonempty (q_title queryInfo) with
  | Some wanted => filter (λ t, includes wanted (title t) = true) results
  | None => results
  end.

End WithPlatform.

Definition tabsGet (tabId : string) (r : Registry) : option TabInfo :=
  map_get tabId (tabRegistry r).

(** [tabsCreate]; [newId] is the identifier drawn with [Math.random]. *)
Definition tabsCreate (newId : string) (createProps : CreateProps) (m : Manager)
    : TabInfo * Manager :=
  let url := str_or (c_url createProps) "about:blank" in
  let m := send (CreateTab url) m in
  let tab :=
    {| id := newId;
       url := url;
       title := "New Tab";
       active := negb (bool_decide (c_active createProps = Some false));
       windowId := 1;
       index := map_size (tabRegistry (registry m));
       favIconUrl := None;
       status := loading;
       incognito := false |} in
  (tab, with_registry
          (mkRegistry (map_set newId tab (tabRegistry (registry m)))
                      (activeTabId (registry m))) m).

Definition set_url (u : string) (t : TabInfo) : TabInfo :=
  mkTabInfo (id t) u (title t) (active t) (windowId t) (index t)
            (favIconUrl t) (status t) (incognito t).

(** [tabsUpdate]; the record returned is the stored one, after the
    updates. *)
Definition tabsUpdate (tabId : string) (updateProps : UpdateProps) (m : Manager)
    : option TabInfo * Manager :=
  match map_get tabId (tabRegistry (registry m)) with
  | None => (None, m)
  | Some tab =>
      let m :=
        match nonempty (u_url updateProps) with
        | Some u =>
            let m := send (NavigateTab tabId u) m in
            with_registry
              (mkRegistry (map_set tabId (set_url u tab) (tabRegistry (registry m)))
                          (activeTabId (registry m))) m
        | None => m
        end in
      let m :=
        if truthy (u_active updateProps) then
          let m := send (ActivateTab tabId) m in
          with_registry (setActiveTab tabId (registry m)) m
        else m in
      let m :=
        match u_pinned updateProps with
        | Some pinned => send (PinTab tabId pinned) m
        | None => m
        end in
      (map_get tabId (tabRegistry (registry m)), m)
  end.

(** [tabsRemove]; [tabIds] is one identifier or an array of them. *)
Definition tabsRemove (tabIds : string + list string) (m : Manager) : Manager :=
  let ids := match tabIds with inl i => [i] | inr l => l end in
  foldl (λ m i, let m := send (CloseTab i) m in
                with_registry (removeTab i (registry m)) m) m ids.

End TabApi.

(** ** A restart of the application *)

Module Session.

(** A new [ExtensionManager] starts with [extensionStorage = new Map()];
    the disk is what the previous run left. *)
Definition restart (st : Storage.State) : Storage.State :=
  Storage.mkState ∅ (Storage.disk st).

(** The requests that write the storage document. *)
Definition writes (q : Storage.Request) : bool :=
  match q with
  | Storage.Get _ => false
  | _ => true
  end.

(** The document that a writing request leaves in the cache. *)
Definition written (q : Storage.Request) (old : Doc) : Doc :=
  match q with
  | Storage.Get _ => old
  | Storage.Set_ items => items ∪ old
  | Storage.Remove keys =>
      foldl (λ doc key, delete key doc) old
            (match keys with inl k => [k] | inr ks => ks end)
  | Storage.Clear => ∅
  end.

End Session.

(** ** More concrete inputs *)

Module Fixtures.

Definition dquote : string := String (ascii_of_nat 34) "".

(** The text of the document with the single entry [count: 1]. *)
Definition counter_text : string :=
  "{" +:+ dquote +:+ "count" +:+ dquote +:+ ":1}".

Definition counter : Doc := {[ "count" := Js.Num 1 ]}.

(** A JSON library that knows two documents: the empty one and
    [counter]. *)
#[local] Instance counter_json : JsonLib :=
  {| JSON_parse := λ text,
       if decide (text = "{}") then Some ∅
       else if decide (text = counter_text) then Some counter
       else None;
     JSON_stringify := λ data,
       match data !! "count" with
       | Some (Js.Num 1) => counter_text
       | _ => "{}"
       end |}.



(** A host session in which ext-A is loaded. *)
Definition loaded : list Ext.HostExtension := [Scenario.example_extension].

End Fixtures.

(** ** What a match pattern asks of a URL *)

Module MatchRules.

(** The characters of a string. *)
Definition chars (s : string) : list ascii := String.list_ascii_of_string s.

(** The host part of a pattern accepts a host name: the star accepts
    every name; star-dot-domain accepts the domain and every name that
    ends with dot-domain; anything else accepts itself only. *)
Definition host_accepts (host hostname : string) : Prop :=
  host = "*"
  ∨ (∃ domain, host = "*." +:+ domain
               ∧ (hostname = domain ∨ ∃ sub, hostname = sub +:+ "." +:+ domain))
  ∨ (Js.startsWith "*." host = false ∧ hostname = host).

(** The scheme part of a pattern accepts a protocol such as [https:]. *)
Definition scheme_accepts (scheme protocol : string) : Prop :=
  scheme = "*" ∨ scheme = Js.replace_first ":"%char "" protocol.

End MatchRules.

(** ** The generated preload script ([createPreloadScript]) *)

Module Preload.

Definition backslash : ascii := "\"%char.
Definition quote : ascii := ascii_of_nat 34.
Definition newline : ascii := "010"%char.
Definition carriage_return : ascii := "013"%char.

(** [s.replace(/c/g, r)] for a one-character expression. *)
Fixpoint replace_all (c : ascii) (r : string) (s : string) : string :=
  match s with
  | EmptyString => EmptyString
  | String a s' =>
      if decide (a = c) then r +:+ replace_all c r s'
      else String a (replace_all c r s')
  end.

(** The three replacements applied to the URL and the title before they
    are put between double quotes in the script: every backslash is
    doubled, every double quote gets a backslash, every line feed
    becomes backslash-n. *)
Definition escape (s : string) : string :=
  replace_all newline (String backslash "n")
    (replace_all quote (String backslash (String quote ""))
       (replace_all backslash (String backslash (String backslash "")) s)).

(** What the three replacements make of one character. *)
Definition escape_one (a : ascii) : string :=
  if decide (a = backslash) then String backslash (String backslash "")
  else if decide (a = quote) then String backslash (String quote "")
  else if decide (a = newline) then String backslash "n"
  else String a "".

(** The character that a backslash followed by [b] stands for, among
    the escapes that [escape] writes. *)
Definition escaped (b : ascii) : option ascii :=
  if decide (b = backslash) then Some backslash
  else if decide (b = quote) then Some quote
  else if decide (b = "n"%char) then Some newline
  else None.

(** The value of a double-quoted script literal with the given body: a
    bare double quote ends the literal early, and a bare line feed or
    carriage return is not allowed inside one. *)
Fixpoint literal_value (body : string) : option string :=
  match body with
  | EmptyString => Some EmptyString
  | String a rest =>
      if decide (a = backslash) then
        match rest with
        | String b rest' =>
            match escaped b with
            | Some c => String c <$> literal_value rest'
            | None => None
            end
        | EmptyString => None
        end
      else if decide (a = quote) then None
      else if decide (a = newline) then None
      else if decide (a = carriage_return) then None
      else String a <$> literal_value rest
  end.

End Preload.

(** ** Where the popup window is shown ([openPopup]) *)

Module Popup.



End Popup.

(** ** Manifests with a single icon *)

Module Icons.




End Icons.

(** ** Proof automation *)

(** Evaluates the closed arguments of the regular-expression calls in the
    goal. *)
Ltac eval_platform_args :=
  repeat match goal with
  | |- context [RegExp_test ?a ?b] =>
      let a' := eval vm_compute in a in
      let b' := eval vm_compute in b in
      progress change (RegExp_test a b) with (RegExp_test a' b')
  end.

(** Runs the loop body of the matcher for one closed pattern up to the
    platform calls. *)
Ltac run_pattern :=
  unfold Matcher.pattern_applies;
  match goal with
  | |- context [Matcher.parse_pattern ?p] =>
      let v := eval vm_compute in (Matcher.parse_pattern p) in
      change (Matcher.parse_pattern p) with v
  end; cbv beta iota.

(** * Properties *)

(** ** The tab registry *)

Module TabRegistryFacts.
Import TabRegistry.

(** *** Keys *)

Lemma keys_map_forEach f m : map_keys (map_forEach f m) = map_keys m.
Proof.
  unfold map_keys, map_forEach. induction m as [|[k v] m IH]; simpl; [done|by f_equal].
Qed.

Lemma keys_map_forEach_counting f i m :
  map_keys (map_forEach_counting f i m) = map_keys m.
Proof.
  unfold map_keys. revert i.
  induction m as [|[k v] m IH]; intros i; simpl; [done|]. by rewrite IH.
Qed.

Lemma map_get_None k m : map_get k m = None ↔ k ∉ map_keys m.
Proof.
  unfold map_keys. induction m as [|[k' v] m IH]; simpl.
  - split; [intros _; apply not_elem_of_nil | done].
  - rewrite not_elem_of_cons. destruct (decide (k' = k)) as [->|Hne].
    + split; [done | intros [? _]; done].
    + rewrite IH. split; [by intros ?; split | by intros [_ ?]].
Qed.

Lemma keys_map_set_fresh k v m :
  k ∉ map_keys m → map_set k v m = (m ++ [(k, v)])%list.
Proof.
  unfold map_keys. induction m as [|[k' v'] m IH]; simpl; [done|].
  rewrite not_elem_of_cons. intros [Hne Hnin].
  destruct (decide (k' = k)); [congruence|]. f_equal. by apply IH.
Qed.

Lemma keys_map_set_present k v m :
  k ∈ map_keys m → map_keys (map_set k v m) = map_keys m.
Proof.
  unfold map_keys. induction m as [|[k' v'] m IH]; simpl.
  - intros Hin. by apply elem_of_nil in Hin.
  - intros Hin. destruct (decide (k' = k)) as [->|Hne]; simpl; [done|].
    apply elem_of_cons in Hin as [?|Hin]; [congruence|]. f_equal. by apply IH.
Qed.

Lemma NoDup_keys_map_set k v m :
  NoDup (map_keys m) → NoDup (map_keys (map_set k v m)).
Proof.
  intros Hnd. destruct (decide (k ∈ map_keys m)) as [Hin|Hnin].
  - by rewrite keys_map_set_present.
  - rewrite keys_map_set_fresh by done. unfold map_keys in *.
    rewrite fmap_app. simpl. apply NoDup_app. split_and!; [done| |apply NoDup_singleton].
    intros x Hx Hx'. apply list_elem_of_singleton in Hx'. by subst.
Qed.

Lemma NoDup_keys_map_delete k m :
  NoDup (map_keys m) → NoDup (map_keys (map_delete k m)).
Proof.
  unfold map_keys, map_delete. intros Hnd.
  eapply sublist_NoDup; [exact Hnd|].
  apply fmap_sublist, sublist_filter.
Qed.

(** *** Counting active records *)

Lemma active_count_cons kv m :
  active_count (kv :: m) =
  ((if active kv.2 then 1 else 0) + active_count m)%nat.
Proof.
  unfold active_count. rewrite filter_cons.
  destruct (decide (active kv.2 = true)) as [->|Hf]; simpl; [done|].
  by destruct (active kv.2).
Qed.

Lemma active_count_app m1 m2 :
  active_count (m1 ++ m2)%list = (active_count m1 + active_count m2)%nat.
Proof. unfold active_count. by rewrite filter_app, length_app. Qed.

(** No record is active: the count is zero. *)
Lemma active_count_none m :
  (∀ kv, kv ∈ m → active kv.2 = false) → active_count m = 0%nat.
Proof.
  induction m as [|kv m IH]; intros Hall; [done|].
  rewrite active_count_cons, (Hall kv) by apply list_elem_of_here.
  rewrite IH; [done|]. intros kv' Hin. apply Hall. by apply list_elem_of_further.
Qed.

(** With distinct keys, records that can only be active under one key
    are active at most once. *)
Lemma active_count_one_key k m :
  NoDup (map_keys m) →
  (∀ kv, kv ∈ m → active kv.2 = true → kv.1 = k) →
  (active_count m ≤ 1)%nat.
Proof.
  unfold map_keys. induction m as [|kv m IH]; intros Hnd Hall; [unfold active_count; simpl; lia|].
  simpl in Hnd. apply NoDup_cons in Hnd as [Hnin Hnd].
  rewrite active_count_cons. destruct (active kv.2) eqn:Hact.
  - rewrite active_count_none; [lia|].
    intros kv' Hin. destruct (active kv'.2) eqn:Hact'; [|done].
    exfalso. apply Hnin.
    rewrite (Hall kv) by (apply list_elem_of_here || done).
    rewrite <- (Hall kv') by (by apply list_elem_of_further || done).
    by apply list_elem_of_fmap_2.
  - simpl. apply IH; [done|]. intros kv' Hin. apply Hall. by apply list_elem_of_further.
Qed.

Lemma active_count_witness kv m :
  kv ∈ m → active kv.2 = true → (1 ≤ active_count m)%nat.
Proof.
  induction 1 as [kv m|kv kv' m _ IH]; intros Hact; rewrite active_count_cons.
  - rewrite Hact. lia.
  - specialize (IH Hact). lia.
Qed.

Lemma active_count_map_set_present k v e m :
  map_get k m = Some e → (active v = true → active e = true) →
  (active_count (map_set k v m) ≤ active_count m)%nat.
Proof.
  intros Hget Himp. induction m as [|[k' v'] m IH]; simpl in *; [done|].
  destruct (decide (k' = k)) as [->|Hne].
  - injection Hget as ->. rewrite !active_count_cons. simpl.
    destruct (active v); [rewrite Himp by done|]; lia.
  - rewrite !active_count_cons. specialize (IH Hget). simpl. lia.
Qed.

Lemma active_count_map_delete k m :
  (active_count (map_delete k m) ≤ active_count m)%nat.
Proof.
  unfold map_delete. induction m as [|kv m IH]; [done|].
  rewrite filter_cons. destruct (decide (kv.1 ≠ k));
    rewrite ?active_count_cons; lia.
Qed.

Lemma active_count_reindex i m :
  active_count (map_forEach_counting set_index i m) = active_count m.
Proof.
  revert i. induction m as [|[k v] m IH]; intros i; [done|].
  simpl. rewrite !active_count_cons. simpl. by rewrite IH.
Qed.

Lemma elem_of_map_forEach f m kv :
  kv ∈ map_forEach f m → ∃ kv0, kv0 ∈ m ∧ kv = (kv0.1, f kv0.1 kv0.2).
Proof.
  unfold map_forEach. intros Hin. apply list_elem_of_fmap in Hin as (kv0 & -> & Hin).
  by exists kv0.
Qed.

Lemma elem_of_map_set k v m : (k, v) ∈ map_set k v m.
Proof.
  induction m as [|[k' v'] m IH]; simpl.
  - apply list_elem_of_here.
  - destruct (decide (k' = k)); [apply list_elem_of_here|by apply list_elem_of_further].
Qed.

(** *** The registry invariant is kept by the three operations *)

Lemma well_formed_empty : well_formed (tabRegistry empty).
Proof. split; [apply NoDup_nil_2 | unfold active_count; simpl; lia]. Qed.

Lemma updateTab_well_formed tabInfo r :
  well_formed (tabRegistry r) → well_formed (tabRegistry (updateTab tabInfo r)).
Proof.
  intros [Hnd Hcount]. unfold updateTab.
  set (reg := match map_get (p_id tabInfo) (tabRegistry r) with
              | Some existing => _ | None => _ end).
  assert (NoDup (map_keys reg)) as Hnd'.
  { subst reg. destruct (map_get _ _); by apply NoDup_keys_map_set. }
  destruct (truthy (p_active tabInfo)) eqn:Hact; simpl.
  - split; [by rewrite keys_map_forEach|].
    apply (active_count_one_key (p_id tabInfo)); [by rewrite keys_map_forEach|].
    intros kv (kv0 & _ & ->)%elem_of_map_forEach. simpl.
    destruct (decide (kv0.1 ≠ p_id tabInfo)) as [|Heq]; [done|].
    intros _. by destruct (decide (kv0.1 = p_id tabInfo)).
  - split; [done|]. subst reg.
    destruct (map_get (p_id tabInfo) (tabRegistry r)) as [existing|] eqn:Hget.
    + etrans; [|exact Hcount].
      eapply active_count_map_set_present; [done|]. simpl.
      unfold truthy in Hact. by destruct (p_active tabInfo) as [[]|].
    + apply map_get_None in Hget. rewrite keys_map_set_fresh by done.
      rewrite active_count_app, active_count_cons. simpl. rewrite Hact.
      unfold active_count at 2. simpl. lia.
Qed.

Lemma removeTab_well_formed tabId r :
  well_formed (tabRegistry r) → well_formed (tabRegistry (removeTab tabId r)).
Proof.
  intros [Hnd Hcount]. unfold removeTab. simpl. split.
  - rewrite keys_map_forEach_counting. by apply NoDup_keys_map_delete.
  - rewrite active_count_reindex. etrans; [apply active_count_map_delete|done].
Qed.

Lemma setActiveTab_well_formed tabId r :
  well_formed (tabRegistry r) → well_formed (tabRegistry (setActiveTab tabId r)).
Proof.
  intros [Hnd Hcount]. unfold setActiveTab. simpl. split.
  - by rewrite keys_map_forEach.
  - apply (active_count_one_key tabId); [by rewrite keys_map_forEach|].
    intros kv (kv0 & _ & ->)%elem_of_map_forEach. simpl.
    by intros ?%bool_decide_eq_true.
Qed.

Lemma step_well_formed r o :
  well_formed (tabRegistry r) → well_formed (tabRegistry (step r o)).
Proof.
  destruct o; simpl.
  - apply updateTab_well_formed.
  - apply removeTab_well_formed.
  - apply setActiveTab_well_formed.
Qed.

Lemma foldl_step_well_formed ops r :
  well_formed (tabRegistry r) → well_formed (tabRegistry (foldl step r ops)).
Proof.
  revert r. induction ops as [|o ops IH]; intros r Hwf; [done|].
  simpl. by apply IH, step_well_formed.
Qed.

(** C1, as amended: after every sequence of upsert, setActive and remove
    messages applied to the empty registry, at most one tab record has
    [active = true]. *)
Theorem at_most_one_active (ops : list Op) :
  (active_count (tabRegistry (run ops)) ≤ 1)%nat.
Proof. apply foldl_step_well_formed, well_formed_empty. Qed.

(** C1, as stated, fails: an upsert of a tab that is not marked active
    into the empty registry leaves one tab and no active tab. *)
Lemma exactly_one_active_fails :
  ¬ (∀ ops : list Op,
       tabRegistry (run ops) ≠ [] → active_count (tabRegistry (run ops)) = 1%nat).
Proof.
  intros Hclaim.
  assert (tabRegistry (run [Upsert (only_id "a")]) ≠ []) as Hne
    by (vm_compute; discriminate).
  specialize (Hclaim _ Hne). vm_compute in Hclaim. discriminate.
Qed.

(** Exactly one record is active right after an upsert that is marked
    active, and right after the activation of a registered tab. *)
Lemma updateTab_active_exactly_one tabInfo ops :
  p_active tabInfo = Some true →
  active_count (tabRegistry (updateTab tabInfo (run ops))) = 1%nat.
Proof.
  intros Hact. apply Nat.le_antisymm.
  - apply updateTab_well_formed, foldl_step_well_formed, well_formed_empty.
  - unfold updateTab. rewrite Hact. simpl.
    set (reg := match map_get _ _ with Some existing => _ | None => _ end).
    assert (∃ v, (p_id tabInfo, v) ∈ reg ∧ active v = true) as (v & Hin & Hv).
    { subst reg. destruct (map_get _ _) as [existing|]; eexists;
        (split; [apply elem_of_map_set|]); simpl; by rewrite Hact. }
    apply (active_count_witness (p_id tabInfo, v)); [|done].
    unfold map_forEach.
    apply (list_elem_of_fmap_2' _ _ (p_id tabInfo, v)); [done|]. simpl.
    by destruct (decide (p_id tabInfo ≠ p_id tabInfo)).
Qed.

Lemma setActiveTab_exactly_one tabId ops :
  tabId ∈ map_keys (tabRegistry (run ops)) →
  active_count (tabRegistry (setActiveTab tabId (run ops))) = 1%nat.
Proof.
  intros Hin. apply Nat.le_antisymm.
  - apply setActiveTab_well_formed, foldl_step_well_formed, well_formed_empty.
  - unfold map_keys in Hin. apply list_elem_of_fmap in Hin as ([k v] & -> & Hin).
    apply (active_count_witness (k, set_active true v)); [|done].
    unfold setActiveTab, map_forEach. simpl.
    apply (list_elem_of_fmap_2' _ _ (k, v)); [done|]. simpl.
    by rewrite bool_decide_eq_true_2.
Qed.

(** *** Indices *)

Lemma length_map_forEach_counting f i m :
  length (map_forEach_counting f i m) = length m.
Proof.
  revert i. induction m as [|[k v] m IH]; intros i; simpl; [done|]. by rewrite IH.
Qed.

Lemma indices_reindex i m :
  indices (map_forEach_counting set_index i m)
  = (λ n, i + Z.of_nat n)%Z <$> seq 0 (length m).
Proof.
  unfold indices, map_values. revert i.
  induction m as [|[k v] m IH]; intros i; simpl; [done|].
  f_equal; [lia|]. rewrite IH, <- seq_shift, <- list_fmap_compose.
  apply list_fmap_ext. intros _ n _. simpl. lia.
Qed.

Lemma indices_map_forEach f m :
  (∀ k t, index (f k t) = index t) → indices (map_forEach f m) = indices m.
Proof.
  intros Hf. unfold indices, map_values, map_forEach.
  induction m as [|[k v] m IH]; simpl; [done|]. f_equal; [apply Hf|apply IH].
Qed.

Lemma dense_S n : dense (S n) = (dense n ++ [Z.of_nat n])%list.
Proof. unfold dense. by rewrite seq_S, fmap_app. Qed.

Lemma map_get_app_fresh k v m :
  k ∉ map_keys m → map_get k (m ++ [(k, v)])%list = Some v.
Proof.
  unfold map_keys. induction m as [|[k' v'] m IH]; simpl.
  - intros _. by destruct (decide (k = k)).
  - rewrite not_elem_of_cons. intros [Hne Hnin].
    destruct (decide (k' = k)); [congruence|]. by apply IH.
Qed.

(** C8: [removeTab] leaves the indices of the remaining records as the
    dense sequence 0..N-1, and a tab then added under a fresh identifier
    gets index N, so that the indices are the dense sequence 0..N. *)
Theorem removeTab_then_add_dense (r : Registry) (tabId : string) (tabInfo : PartialTab) :
  let r1 := removeTab tabId r in
  let n := length (tabRegistry r1) in
  p_id tabInfo ∉ map_keys (tabRegistry r1) →
  indices (tabRegistry r1) = dense n
  ∧ length (tabRegistry (updateTab tabInfo r1)) = S n
  ∧ index <$> map_get (p_id tabInfo) (tabRegistry (updateTab tabInfo r1))
    = Some (Z.of_nat n)
  ∧ indices (tabRegistry (updateTab tabInfo r1)) = dense (S n).
Proof.
  intros r1 n Hfresh.
  assert (indices (tabRegistry r1) = dense n) as Hdense.
  { subst n r1. unfold removeTab. simpl. rewrite indices_reindex.
    rewrite length_map_forEach_counting. unfold dense.
    apply list_fmap_ext. intros _ k _. lia. }
  split; [done|].
  assert (tabRegistry (updateTab tabInfo r1) =
          map_forEach (λ k tab, if truthy (p_active tabInfo)
                                then (if decide (k ≠ p_id tabInfo)
                                      then set_active false tab else tab)
                                else tab)
            (tabRegistry r1 ++ [(p_id tabInfo, fresh_record tabInfo (Z.of_nat n))])%list)
    as ->.
  { unfold updateTab. pose proof Hfresh as Hget. apply map_get_None in Hget.
    rewrite Hget, keys_map_set_fresh by done. unfold map_size. fold n.
    destruct (truthy (p_active tabInfo)); simpl; [done|].
    unfold map_forEach. symmetry. etrans; [|apply list_fmap_id].
    apply list_fmap_ext. by intros _ [] _. }
  split_and!.
  - unfold map_forEach. rewrite length_fmap, length_app. subst n. simpl. lia.
  - unfold map_forEach. rewrite fmap_app. simpl.
    assert (p_id tabInfo ∉ map_keys
              ((λ kv : string * TabInfo, (kv.1,
                 if truthy (p_active tabInfo)
                 then (if decide (kv.1 ≠ p_id tabInfo) then set_active false kv.2 else kv.2)
                 else kv.2)) <$> tabRegistry r1)) as Hfresh'.
    { pose proof (keys_map_forEach (λ k tab, if truthy (p_active tabInfo)
                                then (if decide (k ≠ p_id tabInfo)
                                      then set_active false tab else tab)
                                else tab) (tabRegistry r1)) as Hk.
      unfold map_forEach in Hk. by rewrite Hk. }
    rewrite (map_get_app_fresh _ _ _ Hfresh'). simpl.
    destruct (truthy (p_active tabInfo)); [|done].
    by destruct (decide (p_id tabInfo ≠ p_id tabInfo)).
  - rewrite indices_map_forEach.
    + unfold indices, map_values in *. rewrite !fmap_app, Hdense, dense_S. done.
    + intros k t. destruct (truthy (p_active tabInfo)); [|done].
      by destruct (decide (k ≠ p_id tabInfo)).
Qed.

Lemma removeTab_then_add_dense_witness :
  (p_id Scenario.fourth_tab
   ∉ map_keys (tabRegistry (removeTab "b" Scenario.three_tabs)))
  ∧ indices (tabRegistry (removeTab "b" Scenario.three_tabs)) = [0; 1]%Z
  ∧ indices (tabRegistry (updateTab Scenario.fourth_tab
                            (removeTab "b" Scenario.three_tabs))) = [0; 1; 2]%Z.
Proof.
  assert (p_id Scenario.fourth_tab
          ∉ map_keys (tabRegistry (removeTab "b" Scenario.three_tabs))) as Hfresh
    by (apply (bool_decide_unpack _); vm_compute; exact I).
  split; [exact Hfresh|].
  destruct (removeTab_then_add_dense Scenario.three_tabs "b" Scenario.fourth_tab Hfresh)
    as (Hdense & _ & _ & Hdense').
  split; [exact Hdense|exact Hdense'].
Defined.

(** C10 fails on the merge path of [updateTab]: an upsert into an
    existing record that carries [incognito: true] stores it. *)
Theorem incognito_overwritten_by_upsert :
  incognito <$> map_get "t1"
    (tabRegistry (run [Upsert (only_id "t1");
                       Upsert (mkPartialTab "t1" None None None None None None None
                                            (Some true))]))
  = Some true.
Proof. reflexivity. Qed.

End TabRegistryFacts.

(** ** The matcher *)

Module MatcherFacts.
Import Matcher.

Section WithPlatform.
Context {W : WebPlatform}.

Lemma matches_nil url : matchesUrlPattern url [] = false.
Proof. reflexivity. Qed.

Lemma matches_all_urls url patterns :
  "<all_urls>" ∈ patterns → matchesUrlPattern url patterns = true.
Proof.
  induction patterns as [|pattern rest IH]; intros Hin.
  - by apply elem_of_nil in Hin.
  - simpl. destruct (decide (pattern = "<all_urls>")) as [|Hne]; [done|].
    destruct (pattern_applies url pattern); [done|].
    apply IH. apply elem_of_cons in Hin as [?|?]; [congruence|done].
Qed.

(** One pattern: the loop returns what the loop body decides. *)
Lemma matches_singleton url pattern :
  pattern ≠ "<all_urls>" →
  matchesUrlPattern url [pattern] = pattern_applies url pattern.
Proof.
  intros Hne. simpl. destruct (decide (pattern = "<all_urls>")); [done|].
  by destruct (pattern_applies url pattern).
Qed.

(** C3: a pattern list that holds [<all_urls>] matches every URL; the
    pattern for the subdomains of example.com matches a URL on
    sub.example.com and does not match a URL on example.org; the empty
    list matches nothing.  The two examples rest on what the platform
    answers for these URLs and this expression. *)
Theorem matchesUrlPattern_examples :
  URL_new "https://sub.example.com/path"
    = Some (mkURL "https:" "sub.example.com" "/path" "") →
  URL_new "https://example.org" = Some (mkURL "https:" "example.org" "/" "") →
  RegExp_test "^/.*$" "/path" = Some true →
  (∀ url patterns, "<all_urls>" ∈ patterns → matchesUrlPattern url patterns = true)
  ∧ matchesUrlPattern "https://sub.example.com/path" ["*://*.example.com/*"] = true
  ∧ matchesUrlPattern "https://example.org" ["*://*.example.com/*"] = false
  ∧ (∀ url, matchesUrlPattern url [] = false).
Proof.
  intros Hsub Horg Hre. split_and!.
  - apply matches_all_urls.
  - rewrite matches_singleton by done. run_pattern. rewrite Hsub.
    eval_platform_args. by rewrite Hre.
  - rewrite matches_singleton by done. run_pattern. by rewrite Horg.
  - apply matches_nil.
Qed.

End WithPlatform.

(** The same on the reference platform. *)
Lemma matchesUrlPattern_examples_witness :
  (∀ url patterns, "<all_urls>" ∈ patterns →
     matchesUrlPattern (W := Reference.web) url patterns = true)
  ∧ matchesUrlPattern (W := Reference.web)
      "https://sub.example.com/path" ["*://*.example.com/*"] = true
  ∧ matchesUrlPattern (W := Reference.web)
      "https://example.org" ["*://*.example.com/*"] = false
  ∧ (∀ url, matchesUrlPattern (W := Reference.web) url [] = false).
Proof.
  apply (matchesUrlPattern_examples (W := Reference.web)); reflexivity.
Defined.

End MatcherFacts.

(** ** Strings and POSIX paths *)

Module StringFacts.

Lemma sapp_nil (s : string) : "" +:+ s = s.
Proof. reflexivity. Qed.

Lemma sapp_cons (a : ascii) (s t : string) : String a s +:+ t = String a (s +:+ t).
Proof. reflexivity. Qed.

Lemma sapp_assoc (s1 s2 s3 : string) : (s1 +:+ s2) +:+ s3 = s1 +:+ (s2 +:+ s3).
Proof. induction s1 as [|a s1 IH]; [done|]. rewrite !sapp_cons. by rewrite IH. Qed.

Lemma length_sapp (s1 s2 : string) :
  String.length (s1 +:+ s2) = (String.length s1 + String.length s2)%nat.
Proof. induction s1 as [|a s1 IH]; [done|]. rewrite sapp_cons. simpl. by rewrite IH. Qed.

(** Cancellation of a common suffix. *)
Lemma sapp_inj_r (t s1 s2 : string) : s1 +:+ t = s2 +:+ t → s1 = s2.
Proof.
  intros Heq.
  assert (String.length s1 = String.length s2) as Hlen.
  { apply (f_equal String.length) in Heq. rewrite !length_sapp in Heq. lia. }
  revert s2 Heq Hlen. induction s1 as [|a s1 IH]; intros [|b s2] Heq Hlen;
    simpl in Hlen; try done.
  rewrite !sapp_cons in Heq. injection Heq as -> Heq. f_equal. apply IH; [done|lia].
Qed.

Lemma slice_app (n : nat) (s1 s2 : string) :
  Js.slice (String.length s1 + n) (s1 +:+ s2) = Js.slice n s2.
Proof. induction s1 as [|a s1 IH]; [done|]. rewrite sapp_cons. simpl. apply IH. Qed.

(** Whether a string ends with a slash is decided by any non-empty
    suffix of it. *)
Lemma endsWith_slash_app (s1 s2 : string) :
  s2 ≠ "" → Js.endsWith "/" (s1 +:+ s2) = Js.endsWith "/" s2.
Proof.
  intros Hne. destruct s2 as [|b s2]; [done|].
  unfold Js.endsWith. rewrite length_sapp.
  change (String.length "/") with 1%nat.
  change (String.length (String b s2)) with (S (String.length s2)).
  replace (String.length s1 + S (String.length s2) - 1)%nat
    with (String.length s1 + String.length s2)%nat by lia.
  replace (S (String.length s2) - 1)%nat with (String.length s2) by lia.
  rewrite slice_app.
  replace (1 <=? String.length s1 + S (String.length s2))%nat with true
    by (symmetry; apply Nat.leb_le; lia).
  done.
Qed.

Lemma prefix_empty (s : string) : String.prefix "" s = true.
Proof. by destruct s. Qed.

Lemma startsWith_slash_app (s1 s2 : string) :
  s1 ≠ "" → Js.startsWith "/" (s1 +:+ s2) = Js.startsWith "/" s1.
Proof.
  intros Hne. destruct s1 as [|a s1]; [done|]. rewrite sapp_cons.
  unfold Js.startsWith. cbn [String.prefix].
  destruct (ascii_dec "/"%char a); [|done]. by rewrite !prefix_empty.
Qed.

End StringFacts.

Module PosixFacts.
Import StringFacts Reference.

Lemma segments_of_nonempty s : segments_of s ≠ [].
Proof.
  destruct s as [|a s]; simpl; [done|].
  destruct (decide (a = "/"%char)); [done|]. by destruct (segments_of s).
Qed.

Lemma segments_of_app_slash (s t : string) :
  segments_of (s +:+ "/" +:+ t) = (segments_of s ++ segments_of t)%list.
Proof.
  induction s as [|a s IH]; [done|]. rewrite sapp_cons. simpl.
  destruct (decide (a = "/"%char)); [by rewrite IH|].
  rewrite IH. pose proof (segments_of_nonempty s) as Hne.
  by destruct (segments_of s).
Qed.

Lemma push_plain b stack seg : plain seg → push_segment b stack seg = seg :: stack.
Proof.
  intros (_ & H1 & H2 & H3). unfold push_segment.
  by rewrite !decide_False by done.
Qed.

Lemma join_with_snoc2 (l : list string) (a f : string) :
  join_with "/" (l ++ [a; f]) = lead l +:+ a +:+ "/" +:+ f.
Proof.
  induction l as [|x l IH]; [done|].
  change ((x :: l) ++ [a; f])%list with (x :: (l ++ [a; f]))%list.
  destruct l as [|y l].
  - simpl. by rewrite !sapp_assoc.
  - change (join_with "/" (x :: (y :: l) ++ [a; f]))
      with (x +:+ "/" +:+ join_with "/" ((y :: l) ++ [a; f])).
    rewrite IH. unfold lead.
    change (join_with "/" (x :: y :: l)) with (x +:+ "/" +:+ join_with "/" (y :: l)).
    by rewrite !sapp_assoc.
Qed.

Lemma plain_nonempty a : plain a → a ≠ "".
Proof. by intros (_ & ? & _). Qed.

Lemma plain_relative a : plain a → Js.startsWith "/" a = false.
Proof.
  intros (Hseg & Hne & _). destruct a as [|c a]; [done|].
  unfold Js.startsWith. cbn [String.prefix].
  destruct (ascii_dec "/"%char c) as [<-|]; [|done].
  cbn [segments_of] in Hseg. destruct (decide ("/"%char = "/"%char)); done.
Qed.

Lemma sapp_nonempty (s1 s2 : string) : s2 ≠ "" → s1 +:+ s2 ≠ "".
Proof.
  intros Hne Heq. apply (f_equal String.length) in Heq.
  rewrite length_sapp in Heq. destruct s2; [done|]. simpl in Heq. lia.
Qed.

(** A joined path whose last two segments are plain: its normal form
    keeps the segment before the last as it is, between two strings
    that do not depend on it. *)
Lemma join_shape (root f : string) :
  plain f →
  ∃ before after : string,
    ∀ a, plain a → join [root; a; f] = before +:+ a +:+ after.
Proof.
  intros Hf.
  set (front := if decide (root = "") then "" else root +:+ "/").
  set (R := if decide (root = "") then [] else segments_of root).
  set (abs := if decide (root = "") then false else Js.startsWith "/" root).
  set (S := foldl (push_segment (negb abs)) [] R).
  exists ((if abs then "/" else "") +:+ lead (rev S)),
         ("/" +:+ f +:+ (if Js.endsWith "/" f then "/" else "")).
  intros a Ha.
  pose proof (plain_nonempty a Ha) as Hane.
  pose proof (plain_nonempty f Hf) as Hfne.
  assert (join [root; a; f] = normalize (front +:+ a +:+ "/" +:+ f)) as ->.
  { unfold join, front. rewrite !filter_cons, filter_nil.
    rewrite (decide_True (P := a ≠ "")), (decide_True (P := f ≠ "")) by done.
    destruct (decide (root = "")) as [->|Hroot].
    - by rewrite decide_False by (by intros ?).
    - rewrite decide_True by done.
      change (join_with "/" [root; a; f]) with (root +:+ "/" +:+ a +:+ "/" +:+ f).
      by rewrite !sapp_assoc. }
  assert (Js.startsWith "/" (front +:+ a +:+ "/" +:+ f) = abs) as Habs.
  { unfold front, abs. destruct (decide (root = "")) as [->|Hroot].
    - rewrite sapp_nil, startsWith_slash_app by done. by apply plain_relative.
    - rewrite sapp_assoc, startsWith_slash_app by done. done. }
  assert (Js.endsWith "/" (front +:+ a +:+ "/" +:+ f) = Js.endsWith "/" f) as Htrail.
  { rewrite <- !sapp_assoc. by apply endsWith_slash_app. }
  assert (segments_of (front +:+ a +:+ "/" +:+ f) = (R ++ [a; f])%list) as Hsegs.
  { destruct Ha as (Hsa & _), Hf as (Hsf & _).
    assert (segments_of (a +:+ "/" +:+ f) = [a; f]) as Haf
      by (by rewrite segments_of_app_slash, Hsa, Hsf).
    unfold front, R. destruct (decide (root = "")) as [->|Hroot]; [done|].
    by rewrite sapp_assoc, segments_of_app_slash, Haf. }
  assert (normalizeString (front +:+ a +:+ "/" +:+ f) (negb abs)
          = lead (rev S) +:+ a +:+ "/" +:+ f) as Hnorm.
  { unfold normalizeString. rewrite Hsegs, foldl_app. fold S. simpl.
    rewrite !push_plain by done. simpl.
    rewrite <- (assoc_L (++)). simpl. apply join_with_snoc2. }
  unfold normalize. rewrite decide_False by (by apply sapp_nonempty, sapp_nonempty).
  rewrite Habs, Htrail, Hnorm.
  rewrite decide_False by (by apply sapp_nonempty, sapp_nonempty).
  by rewrite !sapp_assoc.
Qed.

(** Distinct plain identifiers have distinct storage paths. *)
Lemma join_inj_middle (root a b f : string) :
  plain a → plain b → plain f → join [root; a; f] = join [root; b; f] → a = b.
Proof.
  intros Ha Hb Hf Heq. destruct (join_shape root f Hf) as (before & after & Hshape).
  rewrite !Hshape in Heq by done.
  apply (inj (String.app before)) in Heq. by apply sapp_inj_r in Heq.
Qed.

End PosixFacts.

(** ** The storage bridge *)

Module StorageFacts.
Import Storage.

(** *** The two loops of [storageGet] *)



Section Defaults.
Variable storage : Doc.



End Defaults.


Section WithPlatform.
Context {P : PathLib} {J : JsonLib}.
Variable extensionsPath : string.


(** *** Isolation *)

Lemma same_for_refl B st : same_for extensionsPath B st st.
Proof. by split_and!. Qed.

Lemma same_for_trans B st1 st2 st3 :
  same_for extensionsPath B st1 st2 → same_for extensionsPath B st2 st3 → same_for extensionsPath B st1 st3.
Proof. intros (?&?&?) (?&?&?). split_and!; congruence. Qed.

Lemma loadStorage_same_for B st st' :
  same_for extensionsPath B st st' → (loadStorage extensionsPath B st').1 = (loadStorage extensionsPath B st).1.
Proof.
  intros (Hcache & Hfile & Hfaulty). unfold Storage.loadStorage.
  rewrite Hcache. destruct (extensionStorage st !! B); [done|].
  unfold Fs.existsSync, Fs.readFileSync. rewrite Hfile, Hfaulty.
  destruct (bool_decide _); [|done].
  destruct (decide _); [done|].
  destruct (Fs.files (disk st) !! getStoragePath extensionsPath B); [|done].
  by destruct (JSON_parse _).
Qed.

Lemma loadStorage_other A B st :
  A ≠ B → same_for extensionsPath B st (loadStorage extensionsPath A st).2.
Proof.
  intros Hne. unfold Storage.loadStorage.
  destruct (extensionStorage st !! A); [apply same_for_refl|].
  assert (∀ data, same_for extensionsPath B st
            (mkState (<[A := data]> (extensionStorage st)) (disk st))) as Hset.
  { intros data. split_and!; simpl; [by rewrite lookup_insert_ne|done|done]. }
  destruct (Fs.existsSync _ _); [|apply Hset].
  destruct (Fs.readFileSync _ _); [|apply Hset].
  destruct (JSON_parse _); apply Hset.
Qed.

Lemma saveStorage_other A B st :
  getStoragePath extensionsPath A ≠ getStoragePath extensionsPath B → same_for extensionsPath B st (saveStorage extensionsPath A st).
Proof.
  intros Hne. unfold Storage.saveStorage, Fs.writeFileSync.
  destruct (decide _); [apply same_for_refl|].
  split_and!; simpl; [done|by rewrite lookup_insert_ne|done].
Qed.

Lemma cache_update_other A B data st :
  A ≠ B → same_for extensionsPath B st (mkState (<[A := data]> (extensionStorage st)) (disk st)).
Proof. intros Hne. split_and!; simpl; [by rewrite lookup_insert_ne|done|done]. Qed.

Lemma serve_other A B q st :
  A ≠ B → getStoragePath extensionsPath A ≠ getStoragePath extensionsPath B → same_for extensionsPath B st (serve extensionsPath A q st).
Proof.
  intros Hne Hpath. destruct q as [keys|items|keys|]; simpl.
  - unfold Storage.storageGet.
    pose proof (loadStorage_other A B st Hne) as Hload.
    destruct (loadStorage extensionsPath A st) as [storage st']. by destruct keys.
  - unfold Storage.storageSet.
    pose proof (loadStorage_other A B st Hne) as Hload.
    destruct (loadStorage extensionsPath A st) as [storage st']. simpl in Hload.
    eapply same_for_trans; [exact Hload|].
    eapply same_for_trans; [by apply cache_update_other|by apply saveStorage_other].
  - unfold Storage.storageRemove.
    pose proof (loadStorage_other A B st Hne) as Hload.
    destruct (loadStorage extensionsPath A st) as [storage st']. simpl in Hload.
    eapply same_for_trans; [exact Hload|].
    eapply same_for_trans; [by apply cache_update_other|by apply saveStorage_other].
  - unfold Storage.storageClear.
    eapply same_for_trans; [by apply cache_update_other|by apply saveStorage_other].
Qed.



End WithPlatform.

(** On POSIX paths, two distinct identifiers that are plain path segments
    have distinct storage files. *)
Lemma posix_storage_paths_differ (extensionsPath A B : string) :
  Reference.plain A → Reference.plain B → A ≠ B →
  Storage.getStoragePath (P := Reference.paths) extensionsPath A
  ≠ Storage.getStoragePath (P := Reference.paths) extensionsPath B.
Proof.
  intros HA HB Hne Heq. apply Hne.
  apply (PosixFacts.join_inj_middle extensionsPath A B "_solarium_storage.json");
    [done|done| |exact Heq].
  by repeat split.
Qed.

(** So the requests for one plain identifier leave the document of any
    other plain identifier as it is. *)
Lemma posix_documents_disjoint {J : JsonLib} (extensionsPath A B : string)
    (q : Request) (st : State) :
  Reference.plain A → Reference.plain B → A ≠ B →
  document (P := Reference.paths) extensionsPath B
    (serve (P := Reference.paths) extensionsPath A q st)
  = document (P := Reference.paths) extensionsPath B st.
Proof.
  intros HA HB Hne. apply loadStorage_same_for, serve_other; [done|].
  by apply posix_storage_paths_differ.
Qed.


End StorageFacts.

(** ** Removal *)

Module RemovalFacts.
Import Removal.

Section WithPlatform.
Context {P : PathLib} {HP : HostPrimitive}.
Variable extensionsPath : string.

(** C2, as amended: when the host rejects the removal, the handler
    replies with the failure and the host's message, and leaves the
    storage cache and the disk as they were. *)
Theorem remove_rejected (extensionId : string) (h : Host) (st : Storage.State)
    (e : string) :
  removeExtension extensionId h = Throw e →
  let '(reply, h', st') := handle_remove extensionsPath extensionId h st in
  reply = Failure e
  ∧ h' = h
  ∧ Storage.extensionStorage st' = Storage.extensionStorage st
  ∧ Storage.disk st' = Storage.disk st.
Proof.
  intros Hreject. unfold handle_remove. rewrite Hreject. by split_and!.
Qed.

(** When the host accepts the removal, the cache entry is evicted, and
    the storage file is deleted unless the deletion itself throws. *)
Lemma remove_accepted (extensionId : string) (h h1 : Host) (st : Storage.State) :
  removeExtension extensionId h = Ok h1 →
  let '(reply, h', st') := handle_remove extensionsPath extensionId h st in
  h' = h1
  ∧ Storage.extensionStorage st' !! extensionId = None
  ∧ (reply = Success →
     Fs.existsSync (Storage.getStoragePath extensionsPath extensionId)
                   (Storage.disk st') = false).
Proof.
  intros Haccept. unfold handle_remove. rewrite Haccept.
  destruct (Fs.existsSync _ (Storage.disk st)) eqn:Hexists.
  - destruct (Fs.unlinkSync _ _) as [d|e] eqn:Hunlink.
    + split_and!; [done|apply lookup_delete_eq|]. intros _. simpl.
      unfold Fs.unlinkSync in Hunlink. destruct (decide _); [done|].
      destruct (Fs.files _ !! _); [|done]. injection Hunlink as <-.
      unfold Fs.existsSync. simpl. rewrite lookup_delete_eq.
      apply bool_decide_eq_false_2. by intros [? ?].
    + split_and!; [done|apply lookup_delete_eq|done].
  - split_and!; [done|apply lookup_delete_eq|done].
Qed.

End WithPlatform.

Lemma remove_rejected_witness :
  removeExtension (HostPrimitive := Reference.host_session) "ext-A" [] = Throw "Extension not loaded"
  ∧ handle_remove (P := Reference.paths) (HP := Reference.host_session)
      "/extensions" "ext-A" [] Scenario.stored
    = (Failure "Extension not loaded", [], Scenario.stored).
Proof.
  split; [reflexivity|].
  pose proof (remove_rejected (P := Reference.paths) 
                (HP := Reference.host_session)
                "/extensions" "ext-A" [] Scenario.stored "Extension not loaded"
                eq_refl) as Hw.
  destruct (handle_remove _ _ _ _) as [[reply h'] [cache d]].
  destruct Hw as (-> & -> & Hc & Hd). simpl in Hc, Hd. by subst.
Defined.

(** C2, as stated, fails: after a rejected removal the cache entry and
    the storage file are still there. *)
Lemma cleanup_after_rejection_fails :
  ¬ (∀ (extensionId : string) (h : list Ext.HostExtension) (st : Storage.State) e,
       removeExtension (HostPrimitive := Reference.host_session) extensionId h = Throw e →
       let out := handle_remove (P := Reference.paths) (HP := Reference.host_session)
                    "/extensions" extensionId h st in
       out.1.1 = Failure e
       ∧ Storage.extensionStorage out.2 !! extensionId = None
       ∧ Fs.existsSync
           (Storage.getStoragePath (P := Reference.paths) "/extensions" extensionId)
           (Storage.disk out.2) = false).
Proof.
  intros Hclaim.
  destruct (Hclaim "ext-A" [] Scenario.stored "Extension not loaded" eq_refl)
    as (_ & Hcache & _).
  vm_compute in Hcache. discriminate.
Qed.

End RemovalFacts.

(** ** Content scripts *)

Module ContentScriptFacts.
Import Ext ContentScripts.

Section WithPlatform.
Context {W : WebPlatform} {P : PathLib} {E : Encoding} {HP : HostPrimitive}.










End WithPlatform.


End ContentScriptFacts.

(** ** Icon derivation *)

Module RegistryFacts.
Import Ext Registry.

Section WithPlatform.
Context {P : PathLib} {E : Encoding} {HP : HostPrimitive}.

(** Without an icons mapping, or with an empty one, the result is the
    empty string. *)
Lemma resolveExtensionIcon_no_icons (extPath : string) (m : Manifest) (d : Fs.FS) :
  icons m = None ∨ icons m = Some [] → resolveExtensionIcon extPath m d = Ok "".
Proof. unfold resolveExtensionIcon. by intros [-> | ->]. Qed.

(** Once the selected entry is a string, no failure of the file system
    escapes. *)
Lemma resolveExtensionIcon_string_entry (extPath : string) (m : Manifest) (d : Fs.FS)
    entries largest rest iconRelPath :
  icons m = Some entries →
  sort descending (Number_of <$> keys_of entries) = largest :: rest →
  property entries (Number_toString largest) = Js.Str iconRelPath →
  returned (resolveExtensionIcon extPath m d) = true.
Proof.
  intros Hicons Hsort Hentry. unfold resolveExtensionIcon.
  rewrite Hicons, Hsort, Hentry.
  destruct (negb _); [done|]. by destruct (Fs.readFileSync _ _).
Qed.

Lemma map_throwing_returns {A B} (f : A → result B) (l : list A) :
  (∀ a, a ∈ l → returned (f a) = true) → returned (map_throwing f l) = true.
Proof.
  induction l as [|a l IH]; intros Hall; [done|]. simpl.
  pose proof (Hall a (list_elem_of_here _ _)) as Ha.
  destruct (f a) as [b|]; [|done]. simpl.
  assert (returned (map_throwing f l) = true) as Hl.
  { apply IH. intros a' Hin. apply Hall. by apply list_elem_of_further. }
  by destruct (map_throwing f l).
Qed.

Lemma unique_kept seen raw ext : ext ∈ unique seen raw → ext ∈ raw.
Proof.
  revert seen. induction raw as [|e raw IH]; intros seen; simpl; [done|].
  destruct (decide (host_id e ∈ seen)).
  - intros Hin. apply list_elem_of_further. by apply (IH seen).
  - intros [->|Hin]%elem_of_cons; [apply list_elem_of_here|].
    apply list_elem_of_further. by apply (IH _ Hin).
Qed.

(** The listing returns when no loaded extension declares icons. *)
Lemma getLoadedExtensions_returns (h : Host) (d : Fs.FS) :
  (∀ ext, ext ∈ getAllExtensions h →
          icons (default empty_manifest (host_manifest ext)) = None) →
  returned (getLoadedExtensions h d) = true.
Proof.
  intros Hnone. unfold getLoadedExtensions. apply map_throwing_returns.
  intros ext Hin%unique_kept. unfold describe.
  rewrite resolveExtensionIcon_no_icons; [done|]. left. by apply Hnone.
Qed.

(** C9 fails: icon derivation throws when the selected entry of the
    icons mapping is not a string, when the only key of the mapping is
    not numeric, and when the only key is not the decimal form of its
    number. *)
Theorem resolveExtensionIcon_throws (extPath : string) (d : Fs.FS) :
  returned (resolveExtensionIcon extPath Scenario.number_icon d) = false
  ∧ returned (resolveExtensionIcon extPath Scenario.named_icon d) = false
  ∧ returned (resolveExtensionIcon extPath Scenario.padded_icon d) = false.
Proof. split_and!; reflexivity. Qed.

(** The listing of the loaded extensions throws with it. *)
Lemma getLoadedExtensions_throws (h : Host) (d : Fs.FS) ext :
  getAllExtensions h = [ext] →
  host_manifest ext = Some Scenario.padded_icon →
  returned (getLoadedExtensions h d) = false.
Proof.
  intros Hall Hm. unfold getLoadedExtensions. rewrite Hall. simpl.
  rewrite decide_False by apply not_elem_of_empty. simpl.
  unfold describe. by rewrite Hm.
Qed.

End WithPlatform.

End RegistryFacts.

(** ** The installer *)

Module InstallerFacts.
Import Installer.

(** The signature at offset zero or nowhere: the payload is the whole
    buffer. *)
Lemma zip_payload_whole fileBuf :
  (indexOf fileBuf zipMagic ≤ 0)%Z → zip_payload fileBuf = fileBuf.
Proof.
  intros Hle. unfold zip_payload.
  destruct (0 <? indexOf fileBuf zipMagic)%Z eqn:Hlt; [lia|done].
Qed.

Section WithPlatform.
Context {HP : HostPrimitive} {ZL : ZipLib}.

(** C7, as amended: when the signature does not occur in the downloaded
    bytes, the listener hands all of them, unchanged, to the archive
    library.  The installation fails at that point when the library
    rejects them, and it goes through when the library, the extraction,
    the host and the cleanup all succeed. *)
Theorem install_without_magic (tempPath destDir content : string) (w : World) :
  Fs.readFileSync tempPath (disk w) = Ok content →
  indexOf (String.list_byte_of_string content) zipMagic = (-1)%Z →
  install tempPath destDir w
  = install_payload (String.list_byte_of_string content) tempPath destDir w
  ∧ (∀ e, AdmZip_new (String.list_byte_of_string content) = Throw e →
          install tempPath destDir w = (Throw e, w))
  ∧ (∀ zip d1 ext h1 d2,
       AdmZip_new (String.list_byte_of_string content) = Ok zip →
       extractAllTo zip destDir (disk w) = (Ok tt, d1) →
       loadExtension destDir d1 (session w) = Ok (ext, h1) →
       Fs.unlinkSync tempPath d1 = Ok d2 →
       install tempPath destDir w
       = (Ok (Ext.host_name ext),
          mkWorld d2 h1 (notices w ++ [Ext.host_name ext])%list)).
Proof.
  intros Hread Hmagic.
  assert (install tempPath destDir w
          = install_payload (String.list_byte_of_string content) tempPath destDir w)
    as Heq.
  { unfold install. rewrite Hread. rewrite zip_payload_whole; [done|]. lia. }
  split_and!; [done| |].
  - intros e Hreject. rewrite Heq. unfold install_payload. by rewrite Hreject.
  - intros zip d1 ext h1 d2 Hopen Hextract Hload Hunlink.
    rewrite Heq. unfold install_payload.
    by rewrite Hopen, Hextract, Hload, Hunlink.
Qed.

End WithPlatform.

Lemma install_without_magic_witness :
  (Fs.readFileSync "/extensions/temp/ext-A.crx" (disk Scenario.download)
   = Ok (String.string_of_list_byte Reference.empty_archive)
   ∧ indexOf (String.list_byte_of_string
                (String.string_of_list_byte Reference.empty_archive)) zipMagic
     = (-1)%Z)
  ∧ install (ZL := Reference.archives)
      "/extensions/temp/ext-A.crx" "/extensions/ext-A" Scenario.download
    = install_payload (ZL := Reference.archives)
        (String.list_byte_of_string
           (String.string_of_list_byte Reference.empty_archive))
        "/extensions/temp/ext-A.crx" "/extensions/ext-A" Scenario.download.
Proof.
  assert (Fs.readFileSync "/extensions/temp/ext-A.crx" (disk Scenario.download)
          = Ok (String.string_of_list_byte Reference.empty_archive)) as Hread
    by (vm_compute; reflexivity).
  assert (indexOf (String.list_byte_of_string
                     (String.string_of_list_byte Reference.empty_archive)) zipMagic
          = (-1)%Z) as Hmagic by (vm_compute; reflexivity).
  split; [by split|].
  exact (proj1 (install_without_magic (ZL := Reference.archives)
                  "/extensions/temp/ext-A.crx" "/extensions/ext-A"
                  (String.string_of_list_byte Reference.empty_archive)
                  Scenario.download Hread Hmagic)).
Defined.

(** C7, as stated, fails: an empty archive holds no local file header,
    and its installation into a directory that holds a manifest goes
    through. *)
Lemma install_without_magic_can_succeed :
  ¬ (∀ (tempPath destDir content : string)
       (w : World (HP := Reference.host_session)),
       Fs.readFileSync tempPath (disk w) = Ok content →
       indexOf (String.list_byte_of_string content) zipMagic = (-1)%Z →
       returned (install (ZL := Reference.archives) tempPath destDir w).1 = false).
Proof.
  intros Hclaim.
  assert (returned (install (ZL := Reference.archives)
                      "/extensions/temp/ext-A.crx" "/extensions/ext-A"
                      Scenario.download).1 = false) as Hfails.
  { apply (Hclaim _ _ (String.string_of_list_byte Reference.empty_archive));
      vm_compute; reflexivity. }
  vm_compute in Hfails. discriminate.
Qed.

End InstallerFacts.

(** ** The model on small inputs *)

Module Examples.

(** The second of two active upserts takes the active flag over. *)
Example second_active_upsert_wins :
  (λ kv, (kv.1, TabRegistry.active kv.2))
    <$> TabRegistry.tabRegistry
          (TabRegistry.run
             [TabRegistry.Upsert
                (TabRegistry.mkPartialTab "a" None None (Some true) None None None None None);
              TabRegistry.Upsert
                (TabRegistry.mkPartialTab "b" None None (Some true) None None None None None)])
  = [("a", false); ("b", true)].
Proof. reflexivity. Qed.

(** Removing the active tab moves [activeTabId] to the last remaining
    record and sets no [active] flag. *)
Example remove_active_tab :
  let r := TabRegistry.removeTab "a" Scenario.three_tabs in
  TabRegistry.activeTabId r = Some "c"
  ∧ TabRegistry.active_count (TabRegistry.tabRegistry r) = 0%nat
  ∧ TabRegistry.indices (TabRegistry.tabRegistry r) = [0; 1]%Z.
Proof. by split_and!. Qed.

Example pattern_groups :
  Matcher.parse_pattern "*://*.example.com/*" = Some ("*", "*.example.com", "*")
  ∧ Matcher.parse_pattern "https://example.com/a/*/b" = Some ("https", "example.com", "a/*/b")
  ∧ Matcher.parse_pattern "ws://example.com/" = None
  ∧ Matcher.parse_pattern "https://example.com" = None.
Proof. by split_and!. Qed.

(** A key that was never set comes back with its default. *)
Example missing_key_gets_default :
  (Storage.storageGet (P := Reference.paths) (J := Reference.empty_json)
     "/extensions" "ext-A"
     (Storage.Defaults {[ "missing" := Js.Str "default" ]}) Scenario.no_files).1
  = {[ "missing" := Js.Str "default" ]}.
Proof. by vm_compute. Qed.

(** Setting the same item twice stores it once. *)
Example set_twice :
  (Storage.storageGet (P := Reference.paths) (J := Reference.empty_json)
     "/extensions" "ext-A" (Storage.OneKey "a")
     (Storage.storageSet (P := Reference.paths) (J := Reference.empty_json)
        "/extensions" "ext-A" {[ "a" := Js.Num 1 ]}
        (Storage.storageSet (P := Reference.paths) (J := Reference.empty_json)
           "/extensions" "ext-A" {[ "a" := Js.Num 1 ]} Scenario.no_files))).1
  = {[ "a" := Js.Num 1 ]}.
Proof. by vm_compute. Qed.

(** The largest declared icon size is selected. *)
Example largest_icon :
  Registry.resolveExtensionIcon (P := Reference.paths) (E := Reference.plain_encoding)
    "/extensions/ext-A"
    (Ext.mkManifest None None
       (Some [("16", Js.Str "a.png"); ("128", Js.Str "/b.png")]) None None None None)
    (Fs.mkFS {[ "/extensions/ext-A/a.png" := "small";
                "/extensions/ext-A/b.png" := "large" ]} ∅)
  = Ok "data:image/png;base64,large".
Proof. by vm_compute. Qed.

(** Twelve bytes before the signature are dropped; a signature at the
    start, or none, leaves the buffer as it is. *)
Example vendor_header_stripped :
  Installer.zip_payload (replicate 12 Byte.xff ++ Installer.zipMagic ++ [Byte.x01])%list
  = (Installer.zipMagic ++ [Byte.x01])%list
  ∧ Installer.zip_payload (Installer.zipMagic ++ [Byte.x01])%list
    = (Installer.zipMagic ++ [Byte.x01])%list
  ∧ Installer.zip_payload Reference.empty_archive = Reference.empty_archive.
Proof. by split_and!. Qed.

Example posix_join :
  Reference.join ["/data/extensions"; "ext-A"; "_solarium_storage.json"]
  = "/data/extensions/ext-A/_solarium_storage.json"
  ∧ Reference.join ["/data//extensions/"; "./ext-A"; "../ext-B/icon.png"]
    = "/data/extensions/ext-B/icon.png".
Proof. by split_and!. Qed.

End Examples.

(** ** The tab registry and the emulated tabs API *)

Module TabApiFacts.
Import TabRegistry TabApi.

(** *** Lookups after the [Map] primitives *)

Lemma map_get_map_set_eq k v m : map_get k (map_set k v m) = Some v.
Proof.
  induction m as [|[k' v'] m IH]; simpl.
  - by rewrite decide_True.
  - destruct (decide (k' = k)) as [->|Hne]; simpl.
    + by rewrite decide_True.
    + by rewrite decide_False.
Qed.

Lemma map_get_map_set_ne k k' v m :
  k ≠ k' → map_get k' (map_set k v m) = map_get k' m.
Proof.
  intros Hne. induction m as [|[k0 v0] m IH]; simpl.
  - by rewrite decide_False.
  - destruct (decide (k0 = k)) as [->|Hne0]; simpl.
    + by rewrite !decide_False.
    + destruct (decide (k0 = k')); [done|apply IH].
Qed.

Lemma map_get_map_forEach f k m :
  map_get k (map_forEach f m) = f k <$> map_get k m.
Proof.
  unfold map_forEach. induction m as [|[k' v'] m IH]; simpl; [done|].
  destruct (decide (k' = k)) as [->|]; [done|apply IH].
Qed.

Lemma map_get_map_delete k k' m :
  map_get k (map_delete k' m) = if decide (k = k') then None else map_get k m.
Proof.
  unfold map_delete. induction m as [|[k0 v0] m IH]; simpl.
  - by destruct (decide (k = k')).
  - rewrite filter_cons. simpl. destruct (decide (k0 ≠ k')) as [Hne|Heq%dec_stable].
    + simpl. destruct (decide (k0 = k)) as [->|]; [|apply IH].
      by rewrite decide_False.
    + subst k0. rewrite IH. destruct (decide (k = k')) as [->|Hne]; [done|].
      by rewrite decide_False.
Qed.

Lemma map_get_reindex k i m :
  ∃ j, map_get k (map_forEach_counting set_index i m) = set_index j <$> map_get k m.
Proof.
  revert i. induction m as [|[k' v'] m IH]; intros i; simpl.
  - by exists 0.
  - destruct (decide (k' = k)); [by exists i|apply IH].
Qed.

Lemma map_get_Some_elem k v m : map_get k m = Some v → (k, v) ∈ m.
Proof.
  induction m as [|[k' v'] m IH]; simpl; [done|].
  destruct (decide (k' = k)) as [->|].
  - intros [= ->]. apply list_elem_of_here.
  - intros ?. apply list_elem_of_further. by apply IH.
Qed.

Lemma map_get_is_Some k m : is_Some (map_get k m) ↔ k ∈ map_keys m.
Proof.
  rewrite <- not_eq_None_Some.
  split.
  - intros Hne. destruct (decide (k ∈ map_keys m)) as [|Hnin]; [done|].
    by apply TabRegistryFacts.map_get_None in Hnin.
  - intros Hin Hnone. by apply TabRegistryFacts.map_get_None in Hnone.
Qed.

(** *** Records are stored under their own identifier *)

Lemma keyed_map_set k v m : id v = k → keyed m → keyed (map_set k v m).
Proof.
  intros Hid Hm. induction m as [|[k' v'] m IH]; simpl.
  - intros kv ->%list_elem_of_singleton. done.
  - assert (keyed m) as Hm' by (intros kv Hin; apply Hm; by apply list_elem_of_further).
    destruct (decide (k' = k)) as [->|].
    + intros kv [->|Hin]%elem_of_cons; [done|by apply Hm'].
    + intros kv [->|Hin]%elem_of_cons; [apply (Hm (k', v')), list_elem_of_here|].
      by apply IH.
Qed.

Lemma keyed_map_forEach f m :
  (∀ k t, id (f k t) = id t) → keyed m → keyed (map_forEach f m).
Proof.
  intros Hf Hm kv (kv0 & Hin & ->)%TabRegistryFacts.elem_of_map_forEach.
  simpl. rewrite Hf. by apply Hm.
Qed.

Lemma keyed_map_delete k m : keyed m → keyed (map_delete k m).
Proof. intros Hm kv [_ Hin]%list_elem_of_filter. by apply Hm. Qed.

Lemma keyed_reindex i m : keyed m → keyed (map_forEach_counting set_index i m).
Proof.
  revert i. induction m as [|[k v] m IH]; intros i Hm; simpl; [done|].
  intros kv [->|Hin]%elem_of_cons.
  - simpl. apply (Hm (k, v)), list_elem_of_here.
  - apply (IH (i + 1)); [|done]. intros kv' Hin'. apply Hm. by apply list_elem_of_further.
Qed.

Lemma updateTab_keyed tabInfo r :
  keyed (tabRegistry r) → keyed (tabRegistry (updateTab tabInfo r)).
Proof.
  intros Hk. unfold updateTab.
  set (reg := match map_get _ _ with Some existing => _ | None => _ end).
  assert (keyed reg) as Hreg.
  { subst reg. destruct (map_get _ _); by apply keyed_map_set. }
  destruct (truthy _); simpl; [|done].
  apply keyed_map_forEach; [|done]. intros k t. by destruct (decide _).
Qed.

Lemma removeTab_keyed tabId r :
  keyed (tabRegistry r) → keyed (tabRegistry (removeTab tabId r)).
Proof. intros Hk. unfold removeTab. simpl. by apply keyed_reindex, keyed_map_delete. Qed.

Lemma setActiveTab_keyed tabId r :
  keyed (tabRegistry r) → keyed (tabRegistry (setActiveTab tabId r)).
Proof. intros Hk. unfold setActiveTab. simpl. by apply keyed_map_forEach. Qed.

Lemma run_keyed ops : keyed (tabRegistry (run ops)).
Proof.
  unfold run. assert (keyed (tabRegistry empty)) as Hempty
    by (intros kv Hin; by apply elem_of_nil in Hin).
  revert Hempty. generalize empty. induction ops as [|o ops IH]; intros r Hr; [done|].
  simpl. apply IH. destruct o; simpl.
  - by apply updateTab_keyed.
  - by apply removeTab_keyed.
  - by apply setActiveTab_keyed.
Qed.

Lemma run_well_formed ops : well_formed (tabRegistry (run ops)).
Proof. apply TabRegistryFacts.foldl_step_well_formed, TabRegistryFacts.well_formed_empty. Qed.


(** *** What the registry operations do to single records *)

Lemma updateTab_stored (tabInfo : PartialTab) (r : Registry) :
  ∃ t, tabsGet (p_id tabInfo) (updateTab tabInfo r) = Some t
       ∧ id t = p_id tabInfo
       ∧ (∀ u, p_url tabInfo = Some u → url t = u)
       ∧ (∀ s, p_title tabInfo = Some s → s ≠ "" → title t = s)
       ∧ (∀ b, p_active tabInfo = Some b → active t = b)
       ∧ (∀ s, p_status tabInfo = Some s → status t = s)
       ∧ (∀ f, p_favIconUrl tabInfo = Some f → favIconUrl t = Some f).
Proof.
  unfold tabsGet, updateTab.
  set (v := match map_get (p_id tabInfo) (tabRegistry r) with
            | Some existing => assign existing tabInfo
            | None => fresh_record tabInfo (map_size (tabRegistry r))
            end).
  exists v. split.
  - assert (map_get (p_id tabInfo)
              match map_get (p_id tabInfo) (tabRegistry r) with
              | Some existing =>
                  map_set (p_id tabInfo) (assign existing tabInfo) (tabRegistry r)
              | None =>
                  map_set (p_id tabInfo)
                    (fresh_record tabInfo (map_size (tabRegistry r))) (tabRegistry r)
              end = Some v) as Hget.
    { subst v. destruct (map_get (p_id tabInfo) (tabRegistry r));
        apply map_get_map_set_eq. }
    destruct (truthy (p_active tabInfo)); simpl; [|done].
    rewrite map_get_map_forEach, Hget. simpl.
    by rewrite decide_False by (by intros ?).
  - subst v. destruct (map_get (p_id tabInfo) (tabRegistry r)) as [existing|]; simpl.
    + split_and!; [done|by intros ? ->..].
    + split_and!; [done|..].
      * intros u ->. simpl. by destruct (decide (u = "")).
      * intros s -> Hs. simpl. by rewrite decide_False.
      * by intros b ->.
      * by intros s ->.
      * done.
Qed.

Lemma updateTab_elsewhere (tabInfo : PartialTab) (r : Registry) (k : string) :
  k ≠ p_id tabInfo →
  tabsGet k (updateTab tabInfo r)
  = (if truthy (p_active tabInfo) then set_active false else λ t, t) <$> tabsGet k r.
Proof.
  intros Hne. unfold tabsGet, updateTab.
  assert (map_get k
            match map_get (p_id tabInfo) (tabRegistry r) with
            | Some existing =>
                map_set (p_id tabInfo) (assign existing tabInfo) (tabRegistry r)
            | None =>
                map_set (p_id tabInfo)
                  (fresh_record tabInfo (map_size (tabRegistry r))) (tabRegistry r)
            end = map_get k (tabRegistry r)) as Hget.
  { destruct (map_get (p_id tabInfo) _); by apply map_get_map_set_ne. }
  destruct (truthy (p_active tabInfo)); simpl.
  - rewrite map_get_map_forEach, Hget.
    destruct (map_get k (tabRegistry r)); simpl; [by rewrite decide_True|done].
  - rewrite Hget. by destruct (map_get k (tabRegistry r)).
Qed.

(** X1: after [updateTab] the tab of the incoming record is registered
    under its identifier and holds every field that the record
    carries (the title only when it is not empty); every other tab is
    what it was, except that it is no longer active when the incoming
    record is active. *)
Theorem updateTab_records (tabInfo : PartialTab) (r : Registry) :
  (∃ t, tabsGet (p_id tabInfo) (updateTab tabInfo r) = Some t
        ∧ id t = p_id tabInfo
        ∧ (∀ u, p_url tabInfo = Some u → url t = u)
        ∧ (∀ s, p_title tabInfo = Some s → s ≠ "" → title t = s)
        ∧ (∀ b, p_active tabInfo = Some b → active t = b)
        ∧ (∀ s, p_status tabInfo = Some s → status t = s)
        ∧ (∀ f, p_favIconUrl tabInfo = Some f → favIconUrl t = Some f))
  ∧ (∀ k, k ≠ p_id tabInfo →
       tabsGet k (updateTab tabInfo r)
       = (if truthy (p_active tabInfo) then set_active false else λ t, t)
           <$> tabsGet k r).
Proof.
  split; [apply updateTab_stored|]. intros k Hne. by apply updateTab_elsewhere.
Qed.

Lemma keys_map_delete k m :
  map_keys (map_delete k m) = filter (λ k', k' ≠ k) (map_keys m).
Proof.
  unfold map_keys, map_delete. induction m as [|[k' v] m IH]; [done|].
  rewrite fmap_cons, !filter_cons. simpl.
  destruct (decide (k' ≠ k)); [|done]. rewrite fmap_cons. simpl. by f_equal.
Qed.

Lemma removeTab_keys (tabId : string) (r : Registry) :
  map_keys (tabRegistry (removeTab tabId r))
  = filter (λ k, k ≠ tabId) (map_keys (tabRegistry r)).
Proof.
  unfold removeTab. simpl. rewrite TabRegistryFacts.keys_map_forEach_counting.
  apply keys_map_delete.
Qed.

(** X2: [removeTab] unregisters the tab; every other tab keeps its record
    up to the index, and the iteration order of the remaining tabs is
    unchanged. *)
Theorem removeTab_then_get (tabId : string) (r : Registry) :
  tabsGet tabId (removeTab tabId r) = None
  ∧ (∀ k, k ≠ tabId →
       ∃ j, tabsGet k (removeTab tabId r) = set_index j <$> tabsGet k r)
  ∧ map_keys (tabRegistry (removeTab tabId r))
    = filter (λ k, k ≠ tabId) (map_keys (tabRegistry r)).
Proof.
  unfold tabsGet, removeTab. simpl. split_and!.
  - destruct (map_get_reindex tabId 0 (map_delete tabId (tabRegistry r))) as [j ->].
    rewrite map_get_map_delete. by rewrite decide_True.
  - intros k Hne.
    destruct (map_get_reindex k 0 (map_delete tabId (tabRegistry r))) as [j ->].
    exists j. rewrite map_get_map_delete. by rewrite decide_False.
  - apply (removeTab_keys tabId r).
Qed.

Lemma last_keyed m : keyed m → id <$> last (map_values m) = last (map_keys m).
Proof.
  unfold map_values, map_keys. intros Hk.
  induction m as [|[k v] m IH] using rev_ind; [done|].
  rewrite !fmap_app. simpl. rewrite !last_snoc. simpl. f_equal.
  apply (Hk (k, v)). apply elem_of_app. right. apply list_elem_of_here.
Qed.

(** X3: when the removed tab is the one [activeTabId] names, the last
    remaining tab in iteration order takes its place (none when the
    registry becomes empty); otherwise [activeTabId] stays.  It never
    names the removed tab afterwards.  The registry is any one that the
    three operations build from the empty one. *)
Theorem removeTab_activeTabId (ops : list Op) (tabId : string) :
  let r := run ops in
  activeTabId (removeTab tabId r)
  = (if decide (activeTabId r = Some tabId)
     then last (map_keys (tabRegistry (removeTab tabId r)))
     else activeTabId r)
  ∧ activeTabId (removeTab tabId r) ≠ Some tabId.
Proof.
  intros r.
  assert (activeTabId (removeTab tabId r)
          = (if decide (activeTabId r = Some tabId)
             then last (map_keys (tabRegistry (removeTab tabId r)))
             else activeTabId r)) as Heq.
  { unfold removeTab at 1. simpl. destruct (decide (activeTabId r = Some tabId)); [|done].
    unfold removeTab. simpl. rewrite TabRegistryFacts.keys_map_forEach_counting.
    rewrite <- last_keyed by apply keyed_map_delete, run_keyed.
    by destruct (last _). }
  split; [done|]. rewrite Heq.
  destruct (decide (activeTabId r = Some tabId)) as [Hact|Hact]; [|done].
  rewrite removeTab_keys.
  intros Hlast. apply last_Some_elem_of, list_elem_of_filter in Hlast as [Hne _]. done.
Qed.

(** *** Activation *)

Lemma setActiveTab_count tabId (m : TabMap) :
  NoDup (map_keys m) →
  active_count (map_forEach (λ k tab, set_active (bool_decide (k = tabId)) tab) m)
  = if decide (tabId ∈ map_keys m) then 1%nat else 0%nat.
Proof.
  intros Hnd. destruct (decide (tabId ∈ map_keys m)) as [Hin|Hnin].
  - apply Nat.le_antisymm.
    + apply (TabRegistryFacts.active_count_one_key tabId);
        [by rewrite TabRegistryFacts.keys_map_forEach|].
      intros kv (kv0 & _ & ->)%TabRegistryFacts.elem_of_map_forEach. simpl.
      by intros ?%bool_decide_eq_true.
    + unfold map_keys in Hin. apply list_elem_of_fmap in Hin as ([k v] & -> & Hin).
      apply (TabRegistryFacts.active_count_witness (k, set_active true v)); [|done].
      apply (list_elem_of_fmap_2' _ _ (k, v)); [done|]. simpl.
      by rewrite bool_decide_eq_true_2.
  - apply TabRegistryFacts.active_count_none.
    intros kv (kv0 & Hin & ->)%TabRegistryFacts.elem_of_map_forEach. simpl.
    apply bool_decide_eq_false_2. intros Heq. apply Hnin. rewrite <- Heq.
    unfold map_keys. by apply list_elem_of_fmap_2.
Qed.

(** X4: [setActiveTab] records the identifier as [activeTabId] whether
    or not it is registered; afterwards a record is active exactly when
    it is stored under that identifier, so no tab at all is active when
    the identifier is not registered. *)
Theorem setActiveTab_flags (ops : list Op) (tabId : string) :
  let r := setActiveTab tabId (run ops) in
  activeTabId r = Some tabId
  ∧ active_count (tabRegistry r)
    = (if decide (tabId ∈ map_keys (tabRegistry (run ops))) then 1%nat else 0%nat)
  ∧ (∀ k t, tabsGet k r = Some t → active t = bool_decide (k = tabId)).
Proof.
  intros r. split_and!; [done| |].
  - apply setActiveTab_count. apply run_well_formed.
  - intros k t. unfold tabsGet, r, setActiveTab. simpl. rewrite map_get_map_forEach.
    destruct (map_get k _); [|done]. by intros [= <-].
Qed.


(** *** Queries *)

Lemma prefix_app_iff (p s : string) :
  String.prefix p s = true ↔ ∃ post, s = p +:+ post.
Proof.
  revert s. induction p as [|a p IH]; intros s.
  - rewrite StringFacts.prefix_empty. split; [intros _; by exists s|done].
  - destruct s as [|b s]; cbn [String.prefix].
    + split; [done|]. intros [post Heq]. by rewrite StringFacts.sapp_cons in Heq.
    + destruct (ascii_dec a b) as [->|Hne].
      * rewrite IH. split; intros [post Heq]; exists post.
        -- by rewrite StringFacts.sapp_cons, Heq.
        -- rewrite StringFacts.sapp_cons in Heq. by injection Heq.
      * split; [done|]. intros [post Heq].
        rewrite StringFacts.sapp_cons in Heq. by injection Heq.
Qed.

(** [includes] is the substring test. *)
Lemma includes_spec (sub s : string) :
  includes sub s = true ↔ ∃ pre post, s = pre +:+ sub +:+ post.
Proof.
  induction s as [|a s IH].
  - cbn [includes]. rewrite orb_false_r, prefix_app_iff. split.
    + intros [post Heq]. by exists "", post.
    + intros (pre & post & Heq). destruct pre; [by exists post|].
      by rewrite StringFacts.sapp_cons in Heq.
  - cbn [includes]. rewrite orb_true_iff, prefix_app_iff, IH. split.
    + intros [[post Heq]|(pre & post & Heq)].
      * by exists "", post.
      * exists (String a pre), post. by rewrite StringFacts.sapp_cons, Heq.
    + intros (pre & post & Heq). destruct pre as [|b pre].
      * left. by exists post.
      * right. rewrite StringFacts.sapp_cons in Heq. injection Heq as -> Heq.
        by exists pre, post.
Qed.

Lemma filter_values_active (m : TabMap) :
  length (filter (λ t, active t = true) (map_values m)) = active_count m.
Proof.
  unfold map_values, active_count. induction m as [|[k v] m IH]; [done|].
  rewrite fmap_cons, !filter_cons. simpl.
  destruct (decide (active v = true)); simpl; by rewrite IH.
Qed.

Lemma sublist_filter_l {A} (P : A → Prop) `{!∀ x, Decision (P x)} (l1 l2 : list A) :
  l1 `sublist_of` l2 → filter P l1 `sublist_of` l2.
Proof. intros Hsub. etrans; [apply sublist_filter|done]. Qed.

Section WithPlatform.
Context {W : WebPlatform}.

(** X5: [tabsQuery] keeps the iteration order of the registry and returns
    exactly the tabs that pass every filter in force: active tabs when
    [active] is [true], tabs whose URL matches one of the patterns when
    [url] is a non-empty string or an array, tabs whose title contains
    the text when [title] is a non-empty string. *)
Theorem tabsQuery_selects (q : QueryInfo) (r : Registry) :
  tabsQuery q r `sublist_of` map_values (tabRegistry r)
  ∧ (∀ t, t ∈ tabsQuery q r
          ↔ t ∈ map_values (tabRegistry r)
            ∧ (q_active q = Some true → active t = true)
            ∧ (∀ patterns, url_patterns q = Some patterns →
                 Matcher.matchesUrlPattern (url t) patterns = true)
            ∧ (∀ wanted, nonempty (q_title q) = Some wanted →
                 ∃ pre post, title t = pre +:+ wanted +:+ post)).
Proof.
  unfold tabsQuery. split.
  - destruct (nonempty (q_title q)), (url_patterns q), (decide (q_active q = Some true));
      repeat first [reflexivity | apply sublist_filter_l].
  - intros t.
    destruct (nonempty (q_title q)) as [wanted|];
      destruct (url_patterns q) as [patterns|];
      destruct (decide (q_active q = Some true)) as [Hact|Hact];
      rewrite ?list_elem_of_filter; split.
    all: try (intros (Hw & Hp & Ha & Hin)); try (intros (Hw & Hp & Hin));
         try (intros (Hw & Ha & Hin)); try (intros (Hw & Hin));
         try (intros (Hp & Ha & Hin)); try (intros (Hp & Hin));
         try (intros (Ha & Hin)); try (intros Hin).
    all: repeat split; try done.
    all: try (by intros ? [= <-]).
    all: try (intros ? [= <-]; by apply includes_spec).
    all: try (apply includes_spec; naive_solver).
    all: try naive_solver.
Qed.

(** X6: a query for the active tab returns at most one tab on every
    registry that [updateTab], [removeTab] and [setActiveTab] build from
    the empty one. *)
Theorem tabsQuery_active_at_most_one (q : QueryInfo) (ops : list Op) :
  q_active q = Some true → (length (tabsQuery q (run ops)) ≤ 1)%nat.
Proof.
  intros Hact.
  assert (tabsQuery q (run ops)
          `sublist_of` filter (λ t, active t = true)
                              (map_values (tabRegistry (run ops)))) as Hsub.
  { unfold tabsQuery. rewrite decide_True by done.
    destruct (nonempty (q_title q)), (url_patterns q);
      repeat first [reflexivity | apply sublist_filter_l]. }
  apply sublist_length in Hsub. rewrite filter_values_active in Hsub.
  pose proof (run_well_formed ops) as [_ Hcount]. lia.
Qed.


End WithPlatform.


(** *** The emulated [chrome.tabs] calls *)

Lemma send_registry msg m : registry (send msg m) = registry m.
Proof. unfold send. by destruct (mainWindow m). Qed.

Lemma send_mainWindow msg m : mainWindow (send msg m) = mainWindow m.
Proof. unfold send. by destruct (mainWindow m) eqn:Heq. Qed.

Lemma send_outbox msg m :
  outbox (send msg m) = (outbox m ++ if mainWindow m then [msg] else [])%list.
Proof. unfold send. destruct (mainWindow m); simpl; [done|by rewrite app_nil_r]. Qed.

(** X7: [tabsCreate] with an identifier that is not registered appends
    one record with the next index; the new record is active unless
    [active: false] was asked for, and no other record is touched, so
    the number of active records grows by one and [activeTabId] stays as
    it was. *)
Theorem tabsCreate_adds_record (newId : string) (createProps : CreateProps) (m : Manager) :
  newId ∉ map_keys (tabRegistry (registry m)) →
  let tab := (tabsCreate newId createProps m).1 in
  let m' := (tabsCreate newId createProps m).2 in
  tabsGet newId (registry m') = Some tab
  ∧ index tab = map_size (tabRegistry (registry m))
  ∧ incognito tab = false
  ∧ map_keys (tabRegistry (registry m'))
    = (map_keys (tabRegistry (registry m)) ++ [newId])%list
  ∧ (∀ k, k ≠ newId → tabsGet k (registry m') = tabsGet k (registry m))
  ∧ active_count (tabRegistry (registry m'))
    = (active_count (tabRegistry (registry m))
       + (if decide (c_active createProps = Some false) then 0 else 1))%nat
  ∧ activeTabId (registry m') = activeTabId (registry m).
Proof.
  intros Hfresh. unfold tabsCreate, tabsGet. simpl. rewrite !send_registry.
  split_and!; try done.
  - apply map_get_map_set_eq.
  - rewrite TabRegistryFacts.keys_map_set_fresh by done.
    unfold map_keys. by rewrite fmap_app.
  - intros k Hne. by apply map_get_map_set_ne.
  - rewrite TabRegistryFacts.keys_map_set_fresh by done.
    rewrite TabRegistryFacts.active_count_app. f_equal.
    unfold active_count. rewrite filter_cons. cbn [snd active].
    destruct (decide (c_active createProps = Some false)) as [Heq|Hne].
    + rewrite bool_decide_true by done. by rewrite decide_False by done.
    + rewrite bool_decide_false by done. by rewrite decide_True by done.
Qed.

(** X8: [tabsUpdate] sends nothing for a tab that is not registered or
    without a main window; otherwise it sends, in this order, a
    navigation message when [url] is a non-empty string, an activation
    message when [active] is truthy and a pin message when [pinned] is
    given. *)
Theorem tabsUpdate_messages (tabId : string) (updateProps : UpdateProps) (m : Manager) :
  outbox (tabsUpdate tabId updateProps m).2
  = (outbox m
     ++ if mainWindow m && bool_decide (tabId ∈ map_keys (tabRegistry (registry m)))
        then match nonempty (u_url updateProps) with
             | Some u => [NavigateTab tabId u]
             | None => []
             end
             ++ (if truthy (u_active updateProps) then [ActivateTab tabId] else [])
             ++ match u_pinned updateProps with
                | Some pinned => [PinTab tabId pinned]
                | None => []
                end
        else [])%list.
Proof.
  unfold tabsUpdate.
  destruct (map_get tabId (tabRegistry (registry m))) as [tab|] eqn:Hget.
  - rewrite bool_decide_true by (apply map_get_is_Some; by rewrite Hget).
    rewrite andb_true_r. simpl.
    destruct (nonempty (u_url updateProps)) as [u|],
             (truthy (u_active updateProps)),
             (u_pinned updateProps) as [pinned|];
      simpl; rewrite ?send_outbox; simpl; rewrite ?send_outbox; simpl;
      rewrite ?send_outbox; simpl; rewrite ?send_mainWindow; simpl;
      rewrite ?send_mainWindow;
      destruct (mainWindow m); simpl; by rewrite <- ?(assoc_L (++)), ?app_nil_r.
  - apply TabRegistryFacts.map_get_None in Hget.
    rewrite bool_decide_false by done. by rewrite andb_false_r, app_nil_r.
Qed.

(** X9: for a registered tab [tabsUpdate] returns the stored record
    after the update: its URL is the new one when [url] is a non-empty
    string, and it is active when [active] is truthy.  An activation
    deactivates every other tab and sets [activeTabId]; nothing else
    changes, and no tab is added or removed. *)
Theorem tabsUpdate_record (tabId : string) (updateProps : UpdateProps) (m : Manager)
    (tab : TabInfo) :
  tabsGet tabId (registry m) = Some tab →
  let m' := (tabsUpdate tabId updateProps m).2 in
  (tabsUpdate tabId updateProps m).1 = tabsGet tabId (registry m')
  ∧ tabsGet tabId (registry m')
    = Some (set_active (truthy (u_active updateProps) || active tab)
              (set_url (default (url tab) (nonempty (u_url updateProps))) tab))
  ∧ (∀ k, k ≠ tabId →
       tabsGet k (registry m')
       = (if truthy (u_active updateProps) then set_active false else λ t, t)
           <$> tabsGet k (registry m))
  ∧ activeTabId (registry m')
    = (if truthy (u_active updateProps) then Some tabId
       else activeTabId (registry m))
  ∧ map_keys (tabRegistry (registry m')) = map_keys (tabRegistry (registry m)).
Proof.
  unfold tabsGet. intros Hget. unfold tabsUpdate. rewrite Hget. simpl.
  assert (tabId ∈ map_keys (tabRegistry (registry m))) as Hin
    by (apply map_get_is_Some; by rewrite Hget).
  destruct tab as [i u t a w ix f s inc].
  destruct (nonempty (u_url updateProps)) as [u'|],
           (truthy (u_active updateProps)),
           (u_pinned updateProps) as [pinned|];
    simpl; rewrite ?send_registry; simpl; rewrite ?send_registry; simpl;
    rewrite ?send_registry; simpl.
  all: split_and!; try done.
  all: rewrite ?map_get_map_forEach, ?map_get_map_set_eq,
         ?TabRegistryFacts.keys_map_forEach,
         ?TabRegistryFacts.keys_map_set_present by done; simpl;
       rewrite ?bool_decide_true by done; try done.
  all: try (by rewrite Hget; simpl; rewrite ?bool_decide_true by done;
            destruct a).
  all: intros k Hne; rewrite ?map_get_map_forEach, ?map_get_map_set_ne by done;
       destruct (map_get k _); simpl; rewrite ?bool_decide_false by done; done.
Qed.

Lemma tabsRemove_fold_registry ids m :
  registry (tabsRemove (inr ids) m) = foldl (λ r i, removeTab i r) (registry m) ids.
Proof.
  unfold tabsRemove. revert m. induction ids as [|i ids IH]; intros m; [done|].
  simpl. rewrite IH. simpl. by rewrite send_registry.
Qed.

Lemma tabsRemove_inl i m : tabsRemove (inl i) m = tabsRemove (inr [i]) m.
Proof. done. Qed.

Lemma foldl_removeTab_keys ids r :
  map_keys (tabRegistry (foldl (λ r i, removeTab i r) r ids))
  = filter (λ k, k ∉ ids) (map_keys (tabRegistry r)).
Proof.
  revert r. induction ids as [|i ids IH]; intros r; simpl.
  - symmetry. induction (map_keys (tabRegistry r)) as [|k l IHl]; [done|].
    rewrite filter_cons. rewrite decide_True by apply not_elem_of_nil. by f_equal.
  - rewrite IH. unfold removeTab. simpl.
    rewrite TabRegistryFacts.keys_map_forEach_counting, keys_map_delete.
    induction (map_keys (tabRegistry r)) as [|k l IHl]; [done|].
    rewrite !filter_cons. destruct (decide (k ≠ i)) as [Hne|Heq%dec_stable].
    + rewrite filter_cons. destruct (decide (k ∉ ids)) as [Hnin|Hin].
      * rewrite decide_True by (rewrite not_elem_of_cons; done). by f_equal.
      * rewrite decide_False; [done|]. rewrite not_elem_of_cons. tauto.
    + rewrite decide_False; [done|]. rewrite not_elem_of_cons. tauto.
Qed.

Lemma foldl_removeTab_indices ids r :
  ids ≠ [] →
  let reg := tabRegistry (foldl (λ r i, removeTab i r) r ids) in
  indices reg = dense (length reg).
Proof.
  intros Hne. induction ids as [|i ids IH] using rev_ind; [done|].
  rewrite foldl_app. simpl. unfold removeTab at 1 2. simpl.
  rewrite TabRegistryFacts.indices_reindex, TabRegistryFacts.length_map_forEach_counting.
  unfold dense. apply list_fmap_ext. intros ? n _. lia.
Qed.

Lemma tabsRemove_outbox ids m :
  outbox (tabsRemove (inr ids) m)
  = (outbox m ++ if mainWindow m then CloseTab <$> ids else [])%list.
Proof.
  unfold tabsRemove. revert m. induction ids as [|i ids IH]; intros m; simpl.
  - destruct (mainWindow m); by rewrite app_nil_r.
  - rewrite IH. simpl. rewrite send_outbox, send_mainWindow.
    destruct (mainWindow m); simpl; by rewrite <- ?(assoc_L (++)), ?app_nil_r.
Qed.

(** X10: [tabsRemove] unregisters every listed tab and keeps the others
    in their order; when at least one identifier is listed the
    remaining indices are 0, 1, 2, ...; one close message per listed
    identifier is sent, in order, when there is a main window; a single
    identifier is treated as a list of one. *)
Theorem tabsRemove_all (ids : list string) (m : Manager) :
  let m' := tabsRemove (inr ids) m in
  map_keys (tabRegistry (registry m'))
  = filter (λ k, k ∉ ids) (map_keys (tabRegistry (registry m)))
  ∧ (∀ k, k ∈ ids → tabsGet k (registry m') = None)
  ∧ (ids ≠ [] →
     indices (tabRegistry (registry m'))
     = dense (length (tabRegistry (registry m'))))
  ∧ outbox m' = (outbox m ++ if mainWindow m then CloseTab <$> ids else [])%list
  ∧ (∀ i, tabsRemove (inl i) m = tabsRemove (inr [i]) m).
Proof.
  intros m'. subst m'. rewrite tabsRemove_fold_registry. split_and!.
  - apply foldl_removeTab_keys.
  - intros k Hin. unfold tabsGet. apply TabRegistryFacts.map_get_None.
    rewrite foldl_removeTab_keys. rewrite list_elem_of_filter. tauto.
  - intros Hne. by apply foldl_removeTab_indices.
  - apply tabsRemove_outbox.
  - done.
Qed.

(** *** Instances on the three-tab registry *)

Lemma tabsQuery_active_at_most_one_witness :
  q_active (mkQueryInfo (Some true) None None) = Some true
  ∧ (length (tabsQuery (W := Reference.web) (mkQueryInfo (Some true) None None)
               (run [Upsert Scenario.fourth_tab; Upsert (only_id "e")])) ≤ 1)%nat.
Proof.
  split; [done|].
  exact (tabsQuery_active_at_most_one (W := Reference.web)
           (mkQueryInfo (Some true) None None)
           [Upsert Scenario.fourth_tab; Upsert (only_id "e")] eq_refl).
Defined.

Lemma tabsCreate_adds_record_witness :
("x7f3k2m9q" ∉ map_keys (tabRegistry Scenario.three_tabs))
  ∧ active_count
      (tabRegistry (registry (tabsCreate "x7f3k2m9q" (mkCreateProps None None)
                                (mkManager Scenario.three_tabs true [])).2))
    = 2%nat.
Proof.
  assert ("x7f3k2m9q" ∉ map_keys (tabRegistry Scenario.three_tabs)) as Hfresh
    by (apply (bool_decide_unpack _); vm_compute; exact I).
  split; [done|].
  pose proof (tabsCreate_adds_record "x7f3k2m9q" (mkCreateProps None None)
                (mkManager Scenario.three_tabs true []) Hfresh)
    as (_ & _ & _ & _ & _ & Hcount & _).
  by rewrite Hcount.
Defined.

Lemma tabsUpdate_record_witness :
  tabsGet "b" Scenario.three_tabs
  = Some (mkTabInfo "b" "" "New Tab" false 1 1 None complete false)
  ∧ (tabsUpdate "b" (mkUpdateProps (Some "https://example.com/") (Some true) None)
       (mkManager Scenario.three_tabs true [])).1
    = Some (mkTabInfo "b" "https://example.com/" "New Tab" true 1 1 None complete false).
Proof.
  assert (tabsGet "b" Scenario.three_tabs
          = Some (mkTabInfo "b" "" "New Tab" false 1 1 None complete false)) as Hget
    by reflexivity.
  split; [done|].
  pose proof (tabsUpdate_record "b"
                (mkUpdateProps (Some "https://example.com/") (Some true) None)
                (mkManager Scenario.three_tabs true []) _ Hget) as (Hret & Hrec & _).
  by rewrite Hret, Hrec.
Defined.

End TabApiFacts.

(** ** Storage: round trips, write-through and failures *)

Module StorageApiFacts.
Import Storage Session.

Section WithPlatform.
Context {P : PathLib} {J : JsonLib}.
Variable extensionsPath : string.


Lemma loadStorage_cached extensionId st :
  extensionStorage (loadStorage extensionsPath extensionId st).2 !! extensionId
  = Some (loadStorage extensionsPath extensionId st).1.
Proof.
  unfold Storage.loadStorage.
  destruct (extensionStorage st !! extensionId) eqn:Hc; [done|].
  destruct (Fs.existsSync _ _); simpl; [|by rewrite lookup_insert_eq].
  destruct (Fs.readFileSync _ _) as [text|]; simpl; [|by rewrite lookup_insert_eq].
  destruct (JSON_parse text); simpl; by rewrite lookup_insert_eq.
Qed.

Lemma loadStorage_disk extensionId st :
  disk (loadStorage extensionsPath extensionId st).2 = disk st.
Proof.
  unfold Storage.loadStorage.
  destruct (extensionStorage st !! extensionId); [done|].
  destruct (Fs.existsSync _ _); simpl; [|done].
  destruct (Fs.readFileSync _ _) as [text|]; simpl; [|done].
  by destruct (JSON_parse text).
Qed.

Lemma document_cached extensionId data st :
  extensionStorage st !! extensionId = Some data → document extensionsPath extensionId st = data.
Proof. intros Hc. unfold Storage.document, Storage.loadStorage. by rewrite Hc. Qed.

Lemma saveStorage_cache extensionId st :
  extensionStorage (saveStorage extensionsPath extensionId st) = extensionStorage st.
Proof.
  unfold Storage.saveStorage. by destruct (Fs.writeFileSync _ _ _).
Qed.

(** What [saveStorage] leaves on the disk. *)
Lemma saveStorage_disk extensionId st :
  disk (saveStorage extensionsPath extensionId st)
  = if decide (getStoragePath extensionsPath extensionId ∈ Fs.faulty (disk st)) then disk st
    else Fs.mkFS (<[getStoragePath extensionsPath extensionId :=
                      JSON_stringify (default ∅ (extensionStorage st !! extensionId))]>
                    (Fs.files (disk st)))
                 (Fs.faulty (disk st)).
Proof.
  unfold Storage.saveStorage, Fs.writeFileSync. by destruct (decide _).
Qed.

Lemma serve_cache extensionId q st :
  extensionStorage (serve extensionsPath extensionId q st) !! extensionId
  = Some (written q (document extensionsPath extensionId st)).
Proof.
  destruct q as [keys|items|keys|]; simpl.
  - unfold Storage.storageGet, Storage.document.
    pose proof (loadStorage_cached extensionId st) as Hc.
    destruct (loadStorage extensionsPath extensionId st) as [storage st']. by destruct keys.
  - unfold Storage.storageSet, Storage.document.
    destruct (loadStorage extensionsPath extensionId st) as [storage st'].
    rewrite saveStorage_cache. simpl. by rewrite lookup_insert_eq.
  - unfold Storage.storageRemove, Storage.document.
    destruct (loadStorage extensionsPath extensionId st) as [storage st'].
    rewrite saveStorage_cache. simpl. by rewrite lookup_insert_eq.
  - unfold Storage.storageClear. rewrite saveStorage_cache. simpl.
    by rewrite lookup_insert_eq.
Qed.

Lemma serve_disk extensionId q st :
  writes q = true →
  disk (serve extensionsPath extensionId q st)
  = if decide (getStoragePath extensionsPath extensionId ∈ Fs.faulty (disk st)) then disk st
    else Fs.mkFS (<[getStoragePath extensionsPath extensionId :=
                      JSON_stringify (written q (document extensionsPath extensionId st))]>
                    (Fs.files (disk st)))
                 (Fs.faulty (disk st)).
Proof.
  intros Hw. destruct q as [keys|items|keys|]; [done| | |]; simpl.
  - unfold Storage.storageSet, Storage.document.
    pose proof (loadStorage_disk extensionId st) as Hd.
    destruct (loadStorage extensionsPath extensionId st) as [storage st'].
    rewrite saveStorage_disk. simpl in *. by rewrite lookup_insert_eq, Hd.
  - unfold Storage.storageRemove, Storage.document.
    pose proof (loadStorage_disk extensionId st) as Hd.
    destruct (loadStorage extensionsPath extensionId st) as [storage st'].
    rewrite saveStorage_disk. simpl in *. by rewrite lookup_insert_eq, Hd.
  - unfold Storage.storageClear. rewrite saveStorage_disk. simpl.
    by rewrite lookup_insert_eq.
Qed.




(** X13: a request that writes (set, remove or clear), on a storage path
    that can be written, leaves in the storage file the serialisation of
    the document that the session now sees, and touches no other file.
    When the JSON library reads that serialisation back, a manager that
    starts with an empty cache finds the same document. *)
Theorem write_through (extensionId : string) (q : Request) (st : State) :
  writes q = true →
  getStoragePath extensionsPath extensionId ∉ Fs.faulty (disk st) →
  let st' := serve extensionsPath extensionId q st in
  Fs.files (disk st') !! getStoragePath extensionsPath extensionId
  = Some (JSON_stringify (document extensionsPath extensionId st'))
  ∧ (∀ p, p ≠ getStoragePath extensionsPath extensionId →
          Fs.files (disk st') !! p = Fs.files (disk st) !! p)
  ∧ (JSON_parse (JSON_stringify (document extensionsPath extensionId st'))
     = Some (document extensionsPath extensionId st') →
     document extensionsPath extensionId (restart st')
     = document extensionsPath extensionId st').
Proof.
  intros Hw Hok st'.
  pose proof (serve_disk extensionId q st Hw) as Hd. fold st' in Hd.
  rewrite decide_False in Hd by done.
  pose proof (document_cached _ _ _ (serve_cache extensionId q st)) as Hdoc.
  fold st' in Hdoc.
  assert (Fs.files (disk st') !! getStoragePath extensionsPath extensionId
          = Some (JSON_stringify (document extensionsPath extensionId st'))) as Hfile.
  { rewrite Hd, Hdoc. simpl. by rewrite lookup_insert_eq. }
  split_and!; [done| |].
  - intros p Hne. rewrite Hd. simpl. by rewrite lookup_insert_ne.
  - intros Hround. unfold Storage.document at 1, Storage.loadStorage, restart.
    simpl. rewrite lookup_empty. unfold Fs.existsSync, Fs.readFileSync.
    rewrite Hfile. rewrite bool_decide_true by done.
    rewrite decide_False by (by rewrite Hd). by rewrite Hround.
Qed.



(** X16: [storageGet] writes no file and changes no document of any
    extension (it only fills the cache), and asking again returns the
    same result and leaves the state as it is. *)
Theorem storageGet_reads_only (extensionId : string) (keys : Keys) (st : State) :
  let st' := (storageGet extensionsPath extensionId keys st).2 in
  disk st' = disk st
  ∧ (∀ other, document extensionsPath other st' = document extensionsPath other st)
  ∧ storageGet extensionsPath extensionId keys st'
    = ((storageGet extensionsPath extensionId keys st).1, st').
Proof.
  intros st'.
  assert (st' = (loadStorage extensionsPath extensionId st).2) as Hst'.
  { subst st'. unfold Storage.storageGet.
    destruct (loadStorage extensionsPath extensionId st). by destruct keys. }
  pose proof (loadStorage_cached extensionId st) as Hc. rewrite <- Hst' in Hc.
  split_and!.
  - rewrite Hst'. apply loadStorage_disk.
  - intros other. destruct (decide (other = extensionId)) as [->|Hne].
    + by apply document_cached.
    + rewrite Hst'. unfold Storage.document.
      apply StorageFacts.loadStorage_same_for, StorageFacts.loadStorage_other.
      congruence.
  - unfold Storage.storageGet at 1 2. unfold Storage.loadStorage at 1.
    rewrite Hc. fold (loadStorage extensionsPath extensionId st).
    destruct (loadStorage extensionsPath extensionId st) as [storage st0].
    simpl in *. subst st0. by destruct keys.
Qed.

End WithPlatform.

Lemma write_through_witness :
  (writes (Set_ Fixtures.counter) = true
   ∧ getStoragePath (P := Reference.paths) "/extensions" "ext-A"
     ∉ Fs.faulty (disk Scenario.no_files))
  ∧ document (P := Reference.paths) (J := Fixtures.counter_json) "/extensions" "ext-A"
      (restart (storageSet (P := Reference.paths) (J := Fixtures.counter_json)
                  "/extensions" "ext-A" Fixtures.counter Scenario.no_files))
    = Fixtures.counter.
Proof.
  assert (getStoragePath (P := Reference.paths) "/extensions" "ext-A"
          ∉ Fs.faulty (disk Scenario.no_files)) as Hok
    by (apply (bool_decide_unpack _); vm_compute; exact I).
  split; [by split|].
  pose proof (write_through (P := Reference.paths) (J := Fixtures.counter_json)
                "/extensions" "ext-A" (Set_ Fixtures.counter) Scenario.no_files
                eq_refl Hok) as (_ & _ & Hdurable).
  etrans; [apply Hdurable; by vm_compute|by vm_compute].
Defined.



End StorageApiFacts.

(** ** Outcomes of a removal *)

Module RemovalOutcomeFacts.
Import Removal.

Section WithPlatform.
Context {P : PathLib} {J : JsonLib} {HP : HostPrimitive}.
Variable extensionsPath : string.

(** X17: the [extension:remove] handler replies with success exactly
    when the host accepts the removal and the storage file is absent or
    can be deleted.  Once the host has accepted, the extension is gone
    from the session and its cache entry is evicted even when the reply
    is a failure; a reply other than success leaves the disk as it
    was. *)
Theorem remove_reply (extensionId : string) (h : Host) (st : Storage.State) :
  let out := handle_remove extensionsPath extensionId h st in
  let storagePath := Storage.getStoragePath extensionsPath extensionId in
  (out.1.1 = Success
   ↔ (∃ h1, removeExtension extensionId h = Ok h1)
     ∧ (Fs.existsSync storagePath (Storage.disk st) = true →
        storagePath ∉ Fs.faulty (Storage.disk st)))
  ∧ (∀ h1, removeExtension extensionId h = Ok h1 →
       out.1.2 = h1
       ∧ Storage.extensionStorage out.2
         = delete extensionId (Storage.extensionStorage st))
  ∧ (out.1.1 ≠ Success → Storage.disk out.2 = Storage.disk st).
Proof.
  intros out storagePath. subst out. unfold handle_remove.
  fold storagePath.
  destruct (removeExtension extensionId h) as [h1|e] eqn:Hhost.
  - unfold Fs.existsSync, Fs.unlinkSync.
    destruct (Fs.files (Storage.disk st) !! storagePath) as [c|] eqn:Hfile.
    + rewrite bool_decide_true by done.
      destruct (decide (storagePath ∈ Fs.faulty (Storage.disk st))) as [Hbad|Hok];
        simpl.
      * split_and!; [|by intros ? [= <-]|done].
        split; [done|]. intros [_ Hno]. by destruct (Hno eq_refl).
      * split_and!; [|by intros ? [= <-]|done].
        split; [|done]. intros _. split; [by exists h1|done].
    + rewrite bool_decide_false by (by intros [? ?]). simpl.
      split_and!; [|by intros ? [= <-]|done].
      split; [|done]. intros _. split; [by exists h1|done].
  - simpl. split_and!; [|done|done].
    split; [done|]. by intros [[h1 ?] _].
Qed.

(** X18: after a successful [extension:remove] the host has removed the
    extension, only the cache entry and the storage file of that
    extension are gone, and its storage reads as empty, also for an
    extension installed later under the same identifier. *)
Theorem remove_succeeds_clean (extensionId : string) (h h' : Host)
    (st st' : Storage.State) :
  handle_remove extensionsPath extensionId h st = (Success, h', st') →
  removeExtension extensionId h = Ok h'
  ∧ Storage.extensionStorage st' = delete extensionId (Storage.extensionStorage st)
  ∧ Fs.files (Storage.disk st')
    = delete (Storage.getStoragePath extensionsPath extensionId)
             (Fs.files (Storage.disk st))
  ∧ Storage.document extensionsPath extensionId st' = ∅.
Proof.
  unfold handle_remove.
  destruct (removeExtension extensionId h) as [h1|e] eqn:Hhost; [|done].
  unfold Fs.existsSync, Fs.unlinkSync, Storage.document, Storage.loadStorage.
  destruct (Fs.files (Storage.disk st) !! _) as [c|] eqn:Hfile.
  - rewrite bool_decide_true by done.
    destruct (decide (_ ∈ Fs.faulty (Storage.disk st))) as [Hbad|Hok]; [done|].
    intros [= <- <-]. simpl. rewrite lookup_delete_eq.
    unfold Fs.existsSync. simpl. rewrite lookup_delete_eq.
    by rewrite bool_decide_false by (by intros [? ?]).
  - rewrite bool_decide_false by (by intros [? ?]).
    intros [= <- <-]. simpl. rewrite lookup_delete_eq.
    unfold Fs.existsSync. rewrite Hfile.
    rewrite bool_decide_false by (by intros [? ?]).
    split_and!; try done. symmetry. by apply delete_id.
Qed.

End WithPlatform.

Lemma remove_succeeds_clean_witness :
  handle_remove (P := Reference.paths) (HP := Reference.host_session)
    "/extensions" "ext-A" Fixtures.loaded Scenario.stored
  = (Success, [], Scenario.no_files)
  ∧ Storage.document (P := Reference.paths) (J := Reference.empty_json)
      "/extensions" "ext-A" Scenario.no_files = ∅.
Proof.
  assert (handle_remove (P := Reference.paths) (HP := Reference.host_session)
            "/extensions" "ext-A" Fixtures.loaded Scenario.stored
          = (Success, [], Scenario.no_files)) as Hrun by (by vm_compute).
  split; [done|].
  exact (proj2 (proj2 (proj2
           (remove_succeeds_clean (P := Reference.paths) (J := Reference.empty_json)
              (HP := Reference.host_session)
              "/extensions" "ext-A" Fixtures.loaded [] Scenario.stored
              Scenario.no_files Hrun)))).
Defined.

End RemovalOutcomeFacts.

(** ** Match patterns as rules *)

Module MatchRuleFacts.
Import Matcher MatchRules.

(** *** Strings *)

Lemma startsWith_spec (p s : string) :
  Js.startsWith p s = true ↔ ∃ post, s = p +:+ post.
Proof.
  unfold Js.startsWith. revert s. induction p as [|a p IH]; intros s.
  - rewrite StringFacts.prefix_empty. split; [intros _; by exists s|done].
  - destruct s as [|b s]; cbn [String.prefix].
    + split; [done|]. intros [post Heq]. by rewrite StringFacts.sapp_cons in Heq.
    + destruct (ascii_dec a b) as [->|Hne].
      * rewrite IH. split; intros [post Heq]; exists post.
        -- by rewrite StringFacts.sapp_cons, Heq.
        -- rewrite StringFacts.sapp_cons in Heq. by injection Heq.
      * split; [done|]. intros [post Heq].
        rewrite StringFacts.sapp_cons in Heq. by injection Heq.
Qed.

Lemma slice_length_app (s1 s2 : string) : Js.slice (String.length s1) (s1 +:+ s2) = s2.
Proof.
  rewrite <- (Nat.add_0_r (String.length s1)). rewrite StringFacts.slice_app.
  by destruct s2.
Qed.

Lemma slice_split (n : nat) (s : string) :
  (n ≤ String.length s)%nat → ∃ pre, s = pre +:+ Js.slice n s.
Proof.
  revert s. induction n as [|n IH]; intros s Hle.
  - exists "". by destruct s.
  - destruct s as [|a s]; [simpl in Hle; lia|].
    destruct (IH s) as [pre Hpre]; [simpl in Hle; lia|].
    exists (String a pre). rewrite StringFacts.sapp_cons. simpl. by rewrite <- Hpre.
Qed.

Lemma endsWith_spec (p s : string) :
  Js.endsWith p s = true ↔ ∃ pre, s = pre +:+ p.
Proof.
  unfold Js.endsWith. rewrite andb_true_iff, Nat.leb_le, bool_decide_eq_true. split.
  - intros [Hle Hslice].
    destruct (slice_split (String.length s - String.length p) s) as [pre Hpre]; [lia|].
    exists pre. by rewrite Hslice in Hpre.
  - intros [pre ->]. rewrite StringFacts.length_sapp. split; [lia|].
    replace (String.length pre + String.length p - String.length p)%nat
      with (String.length pre) by lia.
    apply slice_length_app.
Qed.

Lemma cut_at_spec (c : ascii) (s before after : string) :
  Js.cut_at c s = Some (before, after)
  ↔ (c ∉ chars before) ∧ s = before +:+ String c after.
Proof.
  revert before. induction s as [|a s IH]; intros before; simpl.
  - split; [done|]. intros [_ Heq]. destruct before; by rewrite ?StringFacts.sapp_cons in Heq.
  - destruct (decide (a = c)) as [->|Hne].
    + split.
      * intros [= <- <-]. split; [apply not_elem_of_nil|done].
      * intros [Hnin Heq]. destruct before as [|b before].
        -- simpl in Heq. by injection Heq as <-.
        -- rewrite StringFacts.sapp_cons in Heq. injection Heq as <- _.
           exfalso. apply Hnin. apply list_elem_of_here.
    + split.
      * destruct (Js.cut_at c s) as [[b' a']|] eqn:Hcut; [|done].
        intros [= <- <-]. destruct (proj1 (IH b') eq_refl) as [Hnin ->].
        split; [|by rewrite StringFacts.sapp_cons].
        unfold chars. simpl. rewrite not_elem_of_cons. split; [congruence|done].
      * intros [Hnin Heq]. destruct before as [|b before].
        -- simpl in Heq. injection Heq as -> _. done.
        -- rewrite StringFacts.sapp_cons in Heq. injection Heq as <- ->.
           unfold chars in Hnin. simpl in Hnin. apply not_elem_of_cons in Hnin as [_ Hnin].
           by rewrite (proj2 (IH before) (conj Hnin eq_refl)).
Qed.

Lemma split_scheme_spec (pattern scheme rest : string) :
  split_scheme schemes pattern = Some (scheme, rest)
  ↔ scheme ∈ schemes ∧ pattern = scheme +:+ "://" +:+ rest.
Proof.
  split.
  - unfold schemes. simpl.
    repeat match goal with
    | |- context [Js.startsWith ?p pattern] =>
        destruct (Js.startsWith p pattern) eqn:?H
    end; try done.
    all: intros [= <- <-].
    all: match goal with H : Js.startsWith _ _ = true |- _ =>
           apply startsWith_spec in H as [post ->] end.
    all: split; [set_solver|].
    all: by vm_compute.
  - intros [Hin ->].
    assert (∀ sch, Js.startsWith (sch +:+ "://") (sch +:+ "://" +:+ rest) = true)
      as Hpos.
    { intros sch. apply startsWith_spec. exists rest.
      by rewrite StringFacts.sapp_assoc. }
    assert (∀ sch, Js.slice (String.length (sch +:+ "://")) (sch +:+ "://" +:+ rest)
                   = rest) as Hslice.
    { intros sch. rewrite <- StringFacts.sapp_assoc. apply slice_length_app. }
    unfold schemes in *.
    repeat (apply elem_of_cons in Hin as [->|Hin]); [..|by apply elem_of_nil in Hin].
    all: cbn [split_scheme].
    all: repeat first
           [ rewrite Hpos, Hslice; reflexivity
           | match goal with
             | |- context [Js.startsWith ?p ?s] =>
                 replace (Js.startsWith p s) with false by (by vm_compute)
             end ].
Qed.

(** X21: the patterns that the expression of [matchesUrlPattern]
    accepts are exactly the strings scheme, colon-slash-slash, host,
    slash, path, where the scheme is one of star, https, http, ftp and
    file, the host holds no slash and the path no line terminator; the
    three groups are then the scheme, the host and the path. *)
Theorem parse_pattern_spec (pattern scheme host patternPath : string) :
  parse_pattern pattern = Some (scheme, host, patternPath)
  ↔ scheme ∈ schemes
    ∧ ("/"%char ∉ chars host)
    ∧ Js.no_line_terminator patternPath = true
    ∧ pattern = scheme +:+ "://" +:+ host +:+ "/" +:+ patternPath.
Proof.
  unfold parse_pattern. split.
  - destruct (split_scheme schemes pattern) as [[sch rest]|] eqn:Hsch; [|done].
    apply split_scheme_spec in Hsch as [Hin ->].
    destruct (Js.cut_at "/"%char rest) as [[h p]|] eqn:Hcut; [|done].
    apply cut_at_spec in Hcut as [Hnin ->].
    destruct (Js.no_line_terminator p) eqn:Hline; [|done].
    by intros [= <- <- <-].
  - intros (Hin & Hnin & Hline & ->).
    rewrite (proj2 (split_scheme_spec _ scheme (host +:+ "/" +:+ patternPath)))
      by done.
    rewrite (proj2 (cut_at_spec "/"%char _ host patternPath)) by done.
    by rewrite Hline.
Qed.

Section WithPlatform.
Context {W : WebPlatform}.

(** X19: [matchesUrlPattern] answers [true] exactly when some pattern of
    the list matches on its own, so the answer for a concatenation is
    the disjunction of the answers, and it depends on which patterns
    occur only, not on their order or number. *)
Theorem matchesUrlPattern_any (url : string) (patterns : list string) :
  (matchesUrlPattern url patterns = true
   ↔ ∃ pattern, pattern ∈ patterns ∧ matches_one url pattern = true)
  ∧ (∀ more, matchesUrlPattern url (patterns ++ more)
             = matchesUrlPattern url patterns || matchesUrlPattern url more)
  ∧ (∀ others, (∀ pattern, pattern ∈ patterns ↔ pattern ∈ others) →
               matchesUrlPattern url patterns = matchesUrlPattern url others).
Proof.
  assert (∀ ps, matchesUrlPattern url ps = true
                ↔ ∃ pattern, pattern ∈ ps ∧ matches_one url pattern = true) as Hany.
  { intros ps. induction ps as [|p ps IH].
    - split; [done|]. intros (? & Hin & _). by apply elem_of_nil in Hin.
    - cbn [matchesUrlPattern]. unfold matches_one at 1.
      destruct (decide (p = "<all_urls>")) as [Heq|Hne].
      + split; [|done]. intros _. exists p. split; [apply list_elem_of_here|].
        unfold matches_one. by rewrite bool_decide_true.
      + destruct (pattern_applies url p) eqn:Happ.
        * split; [|done]. intros _. exists p. split; [apply list_elem_of_here|].
          unfold matches_one. by rewrite Happ, orb_true_r.
        * rewrite IH. split.
          -- intros (q & Hin & Hq). exists q. split; [by apply list_elem_of_further|done].
          -- intros (q & Hin & Hq). apply elem_of_cons in Hin as [->|Hin].
             ++ unfold matches_one in Hq. rewrite Happ, bool_decide_false in Hq by done.
                done.
             ++ by exists q. }
  split_and!; [apply Hany| |].
  - intros more. induction patterns as [|p ps IH]; [done|].
    cbn [matchesUrlPattern app].
    destruct (decide _); [done|]. by destruct (pattern_applies url p).
  - intros others Hsame. apply eq_true_iff_eq. rewrite !Hany.
    split; intros (q & Hin & Hq); exists q; (split; [by apply Hsame|done]).
Qed.

(** X20: a string that the URL constructor rejects matches a pattern
    list exactly when the list holds [<all_urls>]: every other pattern
    is skipped through the [catch]. *)
Theorem invalid_url_matches_all_urls_only (url : string) (patterns : list string) :
  URL_new url = None →
  matchesUrlPattern url patterns = bool_decide ("<all_urls>" ∈ patterns).
Proof.
  intros Hbad. induction patterns as [|p ps IH]; [done|].
  cbn [matchesUrlPattern]. destruct (decide (p = "<all_urls>")) as [->|Hne].
  - by rewrite bool_decide_true by apply list_elem_of_here.
  - assert (pattern_applies url p = false) as ->.
    { unfold pattern_applies. destruct (parse_pattern p) as [[[? ?] ?]|]; [|done].
      by rewrite Hbad. }
    rewrite IH. apply bool_decide_ext. rewrite elem_of_cons.
    split; [by right|]. by intros [?|?].
Qed.

Lemma scheme_check (scheme protocol : string) :
  bool_decide (scheme ≠ "*")
  && bool_decide (scheme ≠ Js.replace_first ":"%char "" protocol) = false
  ↔ scheme_accepts scheme protocol.
Proof.
  rewrite andb_false_iff, !bool_decide_eq_false. unfold scheme_accepts.
  split; (intros [H|H]; [left|right]); first [by apply dec_stable | by intros ?].
Qed.

Lemma host_check (host hostname : string) :
  (if bool_decide (host ≠ "*") then
     if Js.startsWith "*." host then
       bool_decide (hostname ≠ Js.slice 2 host)
       && negb (Js.endsWith ("." +:+ Js.slice 2 host) hostname)
     else bool_decide (hostname ≠ host)
   else false) = false
  ↔ host_accepts host hostname.
Proof.
  unfold host_accepts. destruct (decide (host = "*")) as [->|Hne].
  { split; [by left|done]. }
  rewrite (bool_decide_true (host ≠ "*")) by done.
  destruct (Js.startsWith "*." host) eqn:Hstar.
  - pose proof Hstar as [domain ->]%startsWith_spec.
    replace (Js.slice 2 ("*." +:+ domain)) with domain by done.
    rewrite andb_false_iff, bool_decide_eq_false, negb_false_iff, endsWith_spec.
    split.
    + intros [Heq%dec_stable|[sub Hsub]]; right; left; exists domain; split; eauto.
    + intros [?|[(d & Heq & Hcase)|[Hno _]]]; [done| |congruence].
      assert (d = domain) as -> by (by injection Heq).
      destruct Hcase as [Heq'|[sub Hsub]]; [left; by intros ?|right; by exists sub].
  - rewrite bool_decide_eq_false. split.
    + intros Heq%dec_stable. right; right. done.
    + intros [?|[(d & Heq & _)|[_ Heq]]]; [done| |by intros ?].
      assert (Js.startsWith "*." host = true) by (apply startsWith_spec; by exists d).
      congruence.
Qed.

(** X22: for a well-formed pattern and a URL that parses, the loop body
    reaches [return true] exactly when the scheme of the pattern is the
    star or the protocol of the URL without its colon, the host of the
    pattern accepts the host name (the star accepts all; star-dot-domain
    accepts the domain and every name that ends with dot-domain; any
    other host accepts itself only) and the path expression tests
    true. *)
Theorem pattern_applies_spec (url pattern scheme host patternPath : string)
    (parsed : URL) :
  parse_pattern pattern = Some (scheme, host, patternPath) →
  URL_new url = Some parsed →
  pattern_applies url pattern = true
  ↔ scheme_accepts scheme (protocol parsed)
    ∧ host_accepts host (hostname parsed)
    ∧ RegExp_test ("^/" +:+ Js.replace_stars ".*" patternPath +:+ "$")
                  (pathname parsed +:+ search parsed) = Some true.
Proof.
  intros Hparse Hurl. unfold pattern_applies. rewrite Hparse, Hurl.
  rewrite <- scheme_check, <- host_check.
  destruct (bool_decide (scheme ≠ "*") && _); [split; [done|by intros [? _]]|].
  match goal with
  | |- context [if ?c then false else _] => destruct c
  end; [split; [done|by intros (_ & ? & _)]|].
  destruct (RegExp_test _ _) as [[|]|]; split; try done; by intros (_ & _ & ?).
Qed.

End WithPlatform.

Lemma invalid_url_matches_all_urls_only_witness :
  URL_new (WebPlatform := Reference.web) "not a url" = None
  ∧ matchesUrlPattern (W := Reference.web) "not a url" ["*://*/*"; "<all_urls>"] = true
  ∧ matchesUrlPattern (W := Reference.web) "not a url" ["*://*/*"] = false.
Proof.
  split; [reflexivity|]. split.
  - by rewrite (invalid_url_matches_all_urls_only (W := Reference.web)
                  "not a url" ["*://*/*"; "<all_urls>"] eq_refl).
  - by rewrite (invalid_url_matches_all_urls_only (W := Reference.web)
                  "not a url" ["*://*/*"] eq_refl).
Defined.

Lemma pattern_applies_spec_witness :
  (parse_pattern "*://*.example.com/*" = Some ("*", "*.example.com", "*")
   ∧ URL_new (WebPlatform := Reference.web) "https://notexample.com/"
     = Some (mkURL "https:" "notexample.com" "/" ""))
  ∧ ¬ host_accepts "*.example.com" "notexample.com"
  ∧ pattern_applies (W := Reference.web)
      "https://notexample.com/" "*://*.example.com/*" = false.
Proof.
  assert (¬ host_accepts "*.example.com" "notexample.com") as Hhost.
  { intros [?|[(d & Heq & Hcase)|[? _]]]; [done| |done].
    injection Heq as Heq. change ("" +:+ d) with d in Heq. subst d.
    destruct Hcase as [?|[sub Hsub]]; [done|].
    assert (Js.endsWith ".example.com" "notexample.com" = true) as Hends
      by (apply endsWith_spec; by exists sub).
    done. }
  split; [by split|]. split; [done|].
  apply not_true_is_false. intros Happ. apply Hhost.
  by apply (pattern_applies_spec (W := Reference.web)
              "https://notexample.com/" "*://*.example.com/*"
              "*" "*.example.com" "*" (mkURL "https:" "notexample.com" "/" "")
              eq_refl eq_refl) in Happ as (_ & ? & _).
Defined.

End MatchRuleFacts.

(** ** The listing of loaded extensions *)

Module ListingFacts.
Import Ext Registry.

Lemma unique_fresh seen raw ext :
  ext ∈ unique seen raw → host_id ext ∉ seen.
Proof.
  revert seen. induction raw as [|e raw IH]; intros seen; simpl.
  - intros Hin. by apply elem_of_nil in Hin.
  - destruct (decide (host_id e ∈ seen)) as [Hseen|Hnew]; [apply IH|].
    intros [->|Hin]%elem_of_cons; [done|].
    apply IH in Hin. set_solver.
Qed.

Lemma unique_NoDup seen raw : NoDup (host_id <$> unique seen raw).
Proof.
  revert seen. induction raw as [|e raw IH]; intros seen; simpl; [constructor|].
  destruct (decide (host_id e ∈ seen)); [apply IH|].
  rewrite fmap_cons. constructor; [|apply IH].
  intros (ext & Heq & Hin)%list_elem_of_fmap.
  apply unique_fresh in Hin. set_solver.
Qed.

Lemma unique_first seen raw i :
  head (filter (λ e, host_id e = i) (unique seen raw))
  = if decide (i ∈ seen) then None else head (filter (λ e, host_id e = i) raw).
Proof.
  revert seen. induction raw as [|e raw IH]; intros seen; simpl.
  - by destruct (decide (i ∈ seen)).
  - destruct (decide (host_id e ∈ seen)) as [Hseen|Hnew].
    + rewrite IH. destruct (decide (i ∈ seen)) as [|Hi]; [done|].
      rewrite (filter_cons _ e). rewrite decide_False; [done|]. congruence.
    + rewrite !(filter_cons _ e). destruct (decide (host_id e = i)) as [<-|Hne].
      * by rewrite decide_False by done.
      * rewrite IH. destruct (decide (i ∈ seen)) as [Hi|Hi].
        -- rewrite decide_True; [done|]. apply elem_of_union. by right.
        -- rewrite decide_False; [done|].
           intros [Heq%elem_of_singleton|?]%elem_of_union; congruence.
Qed.

Section WithPlatform.
Context {P : PathLib} {E : Encoding} {HP : HostPrimitive}.

Lemma map_throwing_Ok {A B} (f : A → result B) (l : list A) (bs : list B) :
  map_throwing f l = Ok bs → Forall2 (λ a b, f a = Ok b) l bs.
Proof.
  revert bs. induction l as [|a l IH]; intros bs; simpl.
  - intros [= <-]. constructor.
  - destruct (f a) as [b|] eqn:Hfa; [|done]. simpl.
    destruct (map_throwing f l) as [bs'|]; [|done]. simpl.
    intros [= <-]. constructor; [done|by apply IH].
Qed.

Lemma describe_fields d ext info :
  describe d ext = Ok info →
  id info = host_id ext ∧ name info = host_name ext ∧ path info = host_path ext
  ∧ manifest info = default empty_manifest (host_manifest ext)
  ∧ popupPage info
    = resolvePopupPage (host_id ext) (default empty_manifest (host_manifest ext)).
Proof.
  unfold describe. destruct (resolveExtensionIcon _ _ _); [|done]. simpl.
  by intros [= <-].
Qed.


(** X23: when [getLoadedExtensions] returns, no identifier occurs twice
    in the listing, the identifiers listed are those of the extensions
    that the host reports, and every entry describes the first
    extension that the host reports under its identifier. *)
Theorem getLoadedExtensions_distinct (h : Host) (d : Fs.FS)
    (infos : list ExtensionInfo) :
  getLoadedExtensions h d = Ok infos →
  NoDup (id <$> infos)
  ∧ (∀ i, i ∈ id <$> infos ↔ i ∈ host_id <$> getAllExtensions h)
  ∧ (∀ info, info ∈ infos →
       ∃ ext, head (filter (λ e, host_id e = id info) (getAllExtensions h)) = Some ext
              ∧ name info = host_name ext ∧ path info = host_path ext
              ∧ manifest info = default empty_manifest (host_manifest ext)).
Proof.
  unfold getLoadedExtensions. intros Hall%map_throwing_Ok.
  assert (id <$> infos = host_id <$> unique ∅ (getAllExtensions h)) as Hids.
  { induction Hall as [|ext info l infos Hd _ IH]; [done|].
    rewrite !fmap_cons. f_equal; [|done]. by apply describe_fields in Hd as [? _]. }
  split_and!.
  - rewrite Hids. apply unique_NoDup.
  - intros i. rewrite Hids. split.
    + intros (e & -> & Hin)%list_elem_of_fmap.
      apply list_elem_of_fmap_2. by eapply RegistryFacts.unique_kept.
    + intros (e & -> & Hin)%list_elem_of_fmap.
      pose proof (unique_first ∅ (getAllExtensions h) (host_id e)) as Hfirst.
      rewrite decide_False in Hfirst by set_solver.
      destruct (filter _ (getAllExtensions h)) as [|e0 l0] eqn:Hraw.
      { assert (e ∈ filter (λ e0, host_id e0 = host_id e) (getAllExtensions h)) as Hf
          by (by apply list_elem_of_filter).
        rewrite Hraw in Hf. by apply elem_of_nil in Hf. }
      destruct (filter _ (unique ∅ _)) as [|e1 l1] eqn:Huniq; [done|].
      assert (e1 ∈ filter (λ e0, host_id e0 = host_id e) (unique ∅ (getAllExtensions h)))
        as [Hid Hin1]%list_elem_of_filter by (rewrite Huniq; apply list_elem_of_here).
      rewrite <- Hid. by apply list_elem_of_fmap_2.
  - intros info Hin.
    assert (∃ ext, ext ∈ unique ∅ (getAllExtensions h) ∧ describe d ext = Ok info)
      as (ext & Hext & Hd).
    { clear Hids. induction Hall as [|ext info' l infos Hd _ IH].
      - by apply elem_of_nil in Hin.
      - apply elem_of_cons in Hin as [->|Hin].
        + exists ext. split; [apply list_elem_of_here|done].
        + destruct (IH Hin) as (e & ? & ?). exists e.
          split; [by apply list_elem_of_further|done]. }
    apply describe_fields in Hd as (Hid & Hname & Hpath & Hman & _).
    exists ext. split_and!; try done.
    pose proof (unique_first ∅ (getAllExtensions h) (id info)) as Hfirst.
    rewrite decide_False in Hfirst by set_solver. rewrite <- Hfirst.
    pose proof (unique_NoDup ∅ (getAllExtensions h)) as Hnd.
    revert Hext Hnd. generalize (unique ∅ (getAllExtensions h)). intros l.
    induction l as [|e l IH]; intros Hext Hnd.
    + by apply elem_of_nil in Hext.
    + rewrite fmap_cons in Hnd. apply NoDup_cons in Hnd as [Hnin Hnd].
      rewrite filter_cons. apply elem_of_cons in Hext as [<-|Hext].
      * by rewrite decide_True by done.
      * rewrite decide_False; [by apply IH|].
        intros Heq. apply Hnin. rewrite Heq, Hid. by apply list_elem_of_fmap_2.
Qed.

End WithPlatform.

Lemma strip_leading_once (page : string) :
  Js.startsWith "/" page = false → Js.startsWith "./" page = false →
  strip_leading page = page
  ∧ strip_leading ("/" +:+ page) = page
  ∧ strip_leading ("./" +:+ page) = page
  ∧ strip_leading ("//" +:+ page) = "/" +:+ page.
Proof.
  intros Hslash Hdot. unfold strip_leading. rewrite Hslash, Hdot.
  split_and!; [done| | |].
  - replace (Js.startsWith "./" ("/" +:+ page)) with false by done.
    replace (Js.startsWith "/" ("/" +:+ page)) with true; [done|].
    symmetry. unfold Js.startsWith. rewrite !StringFacts.sapp_cons. cbn [String.prefix].
    destruct (ascii_dec _ _); [|done]. apply StringFacts.prefix_empty.
  - replace (Js.startsWith "./" ("./" +:+ page)) with true; [done|].
    symmetry. unfold Js.startsWith. rewrite !StringFacts.sapp_cons. cbn [String.prefix].
    repeat (destruct (ascii_dec _ _); [|done]). apply StringFacts.prefix_empty.
  - replace (Js.startsWith "./" ("//" +:+ page)) with false by done.
    replace (Js.startsWith "/" ("//" +:+ page)) with true; [done|].
    symmetry. unfold Js.startsWith. rewrite !StringFacts.sapp_cons. cbn [String.prefix].
    by destruct (ascii_dec _ _).
Qed.

(** X24: the popup page is taken from the first of [action],
    [browser_action] and [page_action] that declares a non-empty
    [default_popup], and there is none when none does; one leading
    slash or dot-slash of the declared page is dropped, so [p], [/p] and
    [./p] give the same address, and only one such prefix is dropped. *)
Theorem resolvePopupPage_first_declared (extId : string) (m : Manifest) :
  resolvePopupPage extId m
  = (λ popup, "chrome-extension://" +:+ extId +:+ "/" +:+ strip_leading popup)
      <$> head (filter (λ popup, popup ≠ "")
                       (omap (λ popup, popup)
                             [action_popup m; browser_action_popup m;
                              page_action_popup m]))
  ∧ (∀ page,
       Js.startsWith "/" page = false → Js.startsWith "./" page = false →
       strip_leading page = page
       ∧ strip_leading ("/" +:+ page) = page
       ∧ strip_leading ("./" +:+ page) = page
       ∧ strip_leading ("//" +:+ page) = "/" +:+ page).
Proof.
  split; [|apply strip_leading_once].
  unfold resolvePopupPage, or_else.
  destruct (action_popup m) as [a|], (browser_action_popup m) as [b|],
           (page_action_popup m) as [c|]; simpl.
  all: repeat match goal with
              | |- context [filter _ (?x :: _)] => rewrite (filter_cons _ x)
              end.
  all: rewrite ?filter_nil.
  all: repeat case_decide; simplify_eq/=; try done.
Qed.

Lemma getLoadedExtensions_distinct_witness :
  getLoadedExtensions (P := Reference.paths) (E := Reference.plain_encoding)
    (HP := Reference.host_session)
    [Scenario.example_extension; Scenario.example_extension] Scenario.example_disk
  = Ok [Scenario.example_info]
  ∧ NoDup (id <$> [Scenario.example_info]).
Proof.
  assert (getLoadedExtensions (P := Reference.paths) (E := Reference.plain_encoding)
            (HP := Reference.host_session)
            [Scenario.example_extension; Scenario.example_extension]
            Scenario.example_disk
          = Ok [Scenario.example_info]) as Hrun by (by vm_compute).
  split; [done|].
  exact (proj1 (getLoadedExtensions_distinct (P := Reference.paths)
                  (E := Reference.plain_encoding) (HP := Reference.host_session)
                  [Scenario.example_extension; Scenario.example_extension]
                  Scenario.example_disk [Scenario.example_info] Hrun)).
Defined.

End ListingFacts.

(** ** The icon that is selected *)

Module IconFacts.
Import Ext Registry Icons.









Section WithPlatform.
Context {P : PathLib} {E : Encoding} {HP : HostPrimitive}.


End WithPlatform.


End IconFacts.

(** ** Content-script bundles *)

Module BundleFacts.
Import Ext ContentScripts.

Section WithPlatform.
Context {W : WebPlatform} {P : PathLib} {E : Encoding} {HP : HostPrimitive}.


End WithPlatform.


End BundleFacts.

(** ** Outcomes of an installation *)

Module InstallOutcomeFacts.
Import Installer.

Lemma starts_with_spec (needle buf : list Byte.byte) :
  starts_with needle buf = true ↔ ∃ rest, buf = (needle ++ rest)%list.
Proof.
  revert buf. induction needle as [|a needle IH]; intros buf.
  - split; [intros _; by exists buf|by destruct buf].
  - destruct buf as [|b buf]; simpl.
    + split; [done|]. by intros [rest ?].
    + rewrite andb_true_iff, IH. split.
      * intros [Hab%Byte.byte_dec_bl [rest ->]]. exists rest. by rewrite Hab.
      * intros [rest [= -> ->]]. split; [by apply Byte.byte_dec_lb|by exists rest].
Qed.

(** What [indexOf_from] returns: the offset of the first occurrence,
    counted from [at_], or -1 when there is none. *)
Lemma indexOf_from_spec (needle buf : list Byte.byte) (at_ : Z) :
  (indexOf_from at_ buf needle = -1
   ∧ ∀ j, (j ≤ length buf)%nat → starts_with needle (drop j buf) = false)
  ∨ (∃ i, (i ≤ length buf)%nat
          ∧ indexOf_from at_ buf needle = at_ + Z.of_nat i
          ∧ starts_with needle (drop i buf) = true
          ∧ ∀ j, (j < i)%nat → starts_with needle (drop j buf) = false).
Proof.
  revert at_. induction buf as [|b buf IH]; intros at_.
  - cbn [indexOf_from]. destruct (starts_with needle []) eqn:Hs.
    + right. exists 0%nat. split_and!; [done|lia|done|lia].
    + left. split; [done|]. intros j Hj. by rewrite drop_nil.
  - cbn [indexOf_from]. destruct (starts_with needle (b :: buf)) eqn:Hs.
    + right. exists 0%nat. split_and!; [simpl; lia|lia|done|lia].
    + destruct (IH (at_ + 1)) as [[Hnone Hall]|(i & Hi & Hidx & Hat & Hbefore)].
      * left. split; [done|]. intros [|j] Hj; [done|]. simpl. apply Hall.
        simpl in Hj. lia.
      * right. exists (S i). split_and!; [simpl; lia|lia|done|].
        intros [|j] Hj; [done|]. simpl. apply Hbefore. lia.
Qed.

(** X27: the bytes handed to the archive library are a suffix of the
    downloaded bytes.  Something is cut off only when the signature
    occurs and not at the start: the payload then begins with the
    signature, which occurs nowhere in the part cut off.  Nothing is cut
    off exactly when the download starts with the signature or does not
    hold it at all. *)
Theorem zip_payload_spec (fileBuf : list Byte.byte) :
  ∃ header,
    fileBuf = (header ++ zip_payload fileBuf)%list
    ∧ (header ≠ [] →
       (∃ rest, zip_payload fileBuf = (zipMagic ++ rest)%list)
       ∧ ∀ j, (j < length header)%nat →
              starts_with zipMagic (drop j fileBuf) = false)
    ∧ (header = [] ↔ starts_with zipMagic fileBuf = true
                     ∨ ∀ j, (j ≤ length fileBuf)%nat →
                            starts_with zipMagic (drop j fileBuf) = false).
Proof.
  unfold zip_payload, indexOf, subarray.
  destruct (indexOf_from_spec zipMagic fileBuf 0)
    as [[-> Hnone]|(i & Hi & -> & Hat & Hbefore)].
  - exists []. simpl. split_and!; [done|done|]. split; [by right|done].
  - destruct i as [|i].
    + exists []. simpl. split_and!; [done|done|]. split; [by left|done].
    + replace (0 <? 0 + Z.of_nat (S i))%Z with true by (symmetry; apply Z.ltb_lt; lia).
      replace (Z.to_nat (0 + Z.of_nat (S i))) with (S i) by lia.
      exists (take (S i) fileBuf).
      assert (length (take (S i) fileBuf) = S i) as Hlen
        by (rewrite length_take; lia).
      split_and!.
      * by rewrite take_drop.
      * intros _. split; [by apply starts_with_spec|].
        intros j Hj. apply Hbefore. lia.
      * split.
        -- intros Hnil. rewrite Hnil in Hlen. done.
        -- intros [Hzero|Hnone].
           ++ specialize (Hbefore 0%nat ltac:(lia)). rewrite drop_0 in Hbefore.
              congruence.
           ++ specialize (Hnone (S i) Hi). congruence.
Qed.

Section WithPlatform.
Context {HP : HostPrimitive} {ZL : ZipLib}.

(** X28: what the listener for a completed download leaves behind.  When
    the [try] block runs to its end, the name of the extension has been
    sent to the windows and the temporary file is gone.  In every case
    either no notice was sent and the host session is as it was, or the
    host loaded the extension and its name was sent, also when the
    deletion of the temporary file then fails.  A download that cannot
    be read changes nothing. *)
Theorem install_outcome (tempPath destDir : string) (w : World) :
  let res := (install tempPath destDir w).1 in
  let w' := (install tempPath destDir w).2 in
  (∀ name, res = Ok name →
     notices w' = (notices w ++ [name])%list
     ∧ Fs.existsSync tempPath (disk w') = false)
  ∧ (notices w' = notices w ∧ session w' = session w
     ∨ ∃ d1 ext, loadExtension destDir d1 (session w) = Ok (ext, session w')
                 ∧ notices w' = (notices w ++ [Ext.host_name ext])%list)
  ∧ (∀ e, Fs.readFileSync tempPath (disk w) = Throw e →
          install tempPath destDir w = (Throw e, w)).
Proof.
  unfold install, install_payload.
  destruct (Fs.readFileSync tempPath (disk w)) as [content|e0] eqn:Hread; simpl.
  2: { split_and!; [done|by left|by intros ? [= <-]]. }
  destruct (AdmZip_new _) as [zip|e1]; simpl.
  2: { split_and!; [done|by left|done]. }
  destruct (extractAllTo zip destDir (disk w)) as [[[]|e2] d1]; simpl.
  2: { split_and!; [done|by left|done]. }
  destruct (loadExtension destDir d1 (session w)) as [[ext h1]|e3] eqn:Hload; simpl.
  2: { split_and!; [done|by left|done]. }
  unfold Fs.unlinkSync.
  destruct (decide (tempPath ∈ Fs.faulty d1)); simpl.
  { split_and!; [done| |done]. right. by exists d1, ext. }
  destruct (Fs.files d1 !! tempPath) eqn:Hfile; simpl.
  - split_and!; [| |done].
    + intros name [= <-]. split; [done|]. unfold Fs.existsSync. simpl.
      rewrite lookup_delete_eq. apply bool_decide_false. by intros [? ?].
    + right. by exists d1, ext.
  - split_and!; [done| |done]. right. by exists d1, ext.
Qed.

End WithPlatform.

End InstallOutcomeFacts.

(** ** The popup window *)

Module PopupFacts.
Import TabRegistry Preload Popup.

Lemma replace_all_app c r s t :
  replace_all c r (s +:+ t) = replace_all c r s +:+ replace_all c r t.
Proof.
  induction s as [|a s IH]; [done|]. rewrite StringFacts.sapp_cons. simpl.
  destruct (decide (a = c)); rewrite IH.
  - by rewrite StringFacts.sapp_assoc.
  - by rewrite StringFacts.sapp_cons.
Qed.

(** The three passes together rewrite every character on its own. *)
Lemma escape_cons a s : escape (String a s) = escape_one a +:+ escape s.
Proof.
  unfold escape.
  change (String a s) with (String a "" +:+ s).
  rewrite !replace_all_app. f_equal.
  unfold escape_one. simpl.
  destruct (decide (a = backslash)) as [->|Hb]; [done|]. simpl.
  destruct (decide (a = quote)) as [->|Hq]; [done|]. simpl.
  destruct (decide (a = newline)) as [->|Hn]; [done|]. done.
Qed.

Lemma literal_value_escape_one a rest :
  literal_value (escape_one a +:+ rest)
  = if decide (a = carriage_return) then None
    else String a <$> literal_value rest.
Proof.
  unfold escape_one.
  destruct (decide (a = backslash)) as [->|Hb]; [done|].
  destruct (decide (a = quote)) as [->|Hq]; [done|].
  destruct (decide (a = newline)) as [->|Hn]; [done|].
  rewrite StringFacts.sapp_cons. cbn [literal_value].
  rewrite !decide_False by done. by destruct (decide (a = carriage_return)).
Qed.

(** X29: the text that [createPreloadScript] puts between double quotes
    for the URL and the title of the tab reads back, as a script
    literal, as the original text, unless the text holds a carriage
    return, which the three replacements leave bare inside the
    literal. *)
Theorem escape_round_trip (s : string) :
  literal_value (escape s)
  = if decide (carriage_return ∈ String.list_ascii_of_string s) then None else Some s.
Proof.
  induction s as [|a s IH]; [done|].
  rewrite escape_cons, literal_value_escape_one, IH. simpl.
  destruct (decide (a = carriage_return)) as [->|Hne].
  - by rewrite decide_True by apply list_elem_of_here.
  - destruct (decide (carriage_return ∈ String.list_ascii_of_string s)) as [Hin|Hnin].
    + by rewrite decide_True by (by apply list_elem_of_further).
    + rewrite decide_False; [done|]. rewrite not_elem_of_cons. split; [congruence|done].
Qed.


End PopupFacts.
